(** * fabric-webgui backend: draft slice store and SSH terminal relay

    A shallow embedding of
    - [backend/app/routes/slices.py]: the process-wide draft store
      ([_draft_slices], [_draft_is_new]) and the routes that touch it;
    - [backend/app/routes/terminal.py]: the key loader, the staged tunnel
      set-up, the relay loop and the teardown of [terminal_ws].

    Python dictionaries are stdpp [gmap]s, exceptions are an explicit
    result type threaded through a small state-and-exception monad, and the
    third-party libraries (FABlib, paramiko, the WebSocket transport) are
    oracles: records of outcomes the environment chooses. *)

From stdpp Require Import gmap strings list pretty.
From Stdlib Require Import ZArith String Ascii.

Open Scope string_scope.

(** ** Python exceptions and a state-and-exception monad *)

Module Py.

(** An exception object.  [Exception msg] stands for any exception raised by
    library code, with [str(e) = msg]. *)
Inductive exn : Type :=
  | Exception (msg : string)
  | SSHException (msg : string)
  | WebSocketDisconnect
  | HTTPException (status_code : nat) (detail : string).

(** [str(e)], as used by the f-strings of the source. *)
Definition str (e : exn) : string :=
  match e with
  | Exception msg => msg
  | SSHException msg => msg
  | WebSocketDisconnect => EmptyString
  | HTTPException _ detail => detail
  end.

(** The outcome of a call: a value, or a raised exception. *)
Inductive res (A : Type) : Type :=
  | Ok (a : A)
  | Raise (e : exn).
Arguments Ok {A} a.
Arguments Raise {A} e.

(** Computations over a mutable state [S] that may raise. *)
Definition M (S A : Type) : Type := S → res A * S.

Definition ret {S A} (a : A) : M S A := λ s, (Ok a, s).
Definition raise {S A} (e : exn) : M S A := λ s, (Raise e, s).
Definition bind {S A B} (m : M S A) (k : A → M S B) : M S B :=
  λ s, match m s with
       | (Ok a, s') => k a s'
       | (Raise e, s') => (Raise e, s')
       end.

(** [try: m except Exception as e: h e].  State changes made by [m] before it
    raised are kept, as in Python. *)
Definition try_except {S A} (m : M S A) (h : exn → M S A) : M S A :=
  λ s, match m s with
       | (Ok a, s') => (Ok a, s')
       | (Raise e, s') => h e s'
       end.

(** [try: m except Exception: pass]. *)
Definition try_pass {S} (m : M S unit) : M S unit :=
  try_except m (λ _, ret tt).

(** Lift the outcome of an external call. *)
Definition call {S A} (r : res A) : M S A := λ s, (r, s).

Definition get {S} : M S S := λ s, (Ok s, s).
Definition put {S} (s : S) : M S unit := λ _, (Ok tt, s).
Definition modify {S} (f : S → S) : M S unit := λ s, (Ok tt, f s).

End Py.

Import Py.

(** Sequencing is written [x ← m; k] and [m;; k], as in stdpp, and read in
    the order of the source: [m] runs first. *)
Declare Scope py_scope.
Delimit Scope py_scope with py.
Notation "x ← y ; z" := (bind y (λ x : _, z))
  (at level 20, y at level 100, z at level 200, only parsing) : py_scope.
Notation "' x ← y ; z" := (bind y (λ x : _, z))
  (at level 20, x pattern, y at level 100, z at level 200, only parsing) : py_scope.
Notation "x ;; z" := (bind x (λ _, z))
  (at level 100, z at level 200, only parsing, right associativity) : py_scope.
Open Scope py_scope.

(** ** The draft slice store ([slices.py]) *)

Module Slices.

(** A value held in the store.  The source types it [Any]; the routes only
    ever compare it with [None], so a payload is either [None] or a reference
    to a (mutable) FABlib slice object.  Two payloads are the same when they
    are the same reference. *)
Inductive pyobj : Type :=
  | PyNone
  | PySlice (ref : N).

Definition is_not_None (o : pyobj) : bool :=
  match o with PyNone => false | PySlice _ => true end.

(** The two module-level tables. *)
Record DraftStore : Type := mkStore {
  _draft_slices : gmap string pyobj;
  _draft_is_new : gmap string bool
}.

Definition empty_store : DraftStore := mkStore ∅ ∅.

(** [d.pop(k, dflt)]: the value and the dictionary without [k]. *)
Definition dict_pop {V} (k : string) (dflt : V) (d : gmap string V)
  : V * gmap string V :=
  (default dflt (d !! k), delete k d).

(** [d.get(k, dflt)]. *)
Definition dict_get {V} (k : string) (dflt : V) (d : gmap string V) : V :=
  default dflt (d !! k).

(** [k in d]. *)
Definition dict_in {V} (k : string) (d : gmap string V) : bool :=
  bool_decide (is_Some (d !! k)).

(** External collaborators: FABlib and the serializer, as outcomes the
    environment chooses.  A method called on [None] raises before the
    library is reached ([on_object]). *)
Record SliceDict : Type := mkSliceDict {
  sd_name : string;
  sd_state : string;
  sd_dirty : bool;
  sd_rest : string
}.

Record Fablib : Type := mkFablib {
  get_fablib : res unit;
  fablib_get_slice : string → res pyobj;
  fablib_new_slice : string → res pyobj;
  slice_submit : pyobj → bool → res unit;
  slice_update : pyobj → res unit;
  slice_delete : pyobj → res unit;
  slice_to_dict : pyobj → res SliceDict;
  build_graph : SliceDict → res string
}.

Definition on_object {A} (o : pyobj) (r : res A) : res A :=
  match o with
  | PyNone => Raise (Exception "'NoneType' object has no attribute")
  | PySlice _ => r
  end.

(** What a route returns to the client. *)
Inductive Response : Type :=
  | SliceView (data : SliceDict) (graph : string)
  | Status (status name : string).

Abbreviation Route := (M DraftStore).

(** The bodies below are what runs inside [with _draft_lock:]; the lock makes
    each of them one atomic step on the store. *)

Definition _store_draft (name : string) (slice_obj : pyobj) (is_new : bool)
  : Route unit :=
  modify (λ st, mkStore (<[name := slice_obj]> (_draft_slices st))
                        (<[name := is_new]> (_draft_is_new st))).

Definition _pop_draft (name : string) : Route (pyobj * bool) :=
  st ← get;
  let '(obj, slices') := dict_pop name PyNone (_draft_slices st) in
  let '(is_new, flags') := dict_pop name true (_draft_is_new st) in
  put (mkStore slices' flags');;
  ret (obj, is_new).

Definition _get_draft (name : string) : Route pyobj :=
  st ← get; ret (dict_get name PyNone (_draft_slices st)).

Definition _is_draft (name : string) : Route bool :=
  st ← get; ret (dict_in name (_draft_slices st)).

Definition _is_new_draft (name : string) : Route bool :=
  st ← get; ret (dict_get name true (_draft_is_new st)).

Section Routes.
Variable fab : Fablib.

Definition _get_slice_obj (name : string) : Route pyobj :=
  draft ← _get_draft name;
  if is_not_None draft then ret draft
  else
    call (get_fablib fab);;
    call (fablib_get_slice fab name).

Definition _serialize (slice_obj : pyobj) (dirty : bool) : Route Response :=
  data ← call (slice_to_dict fab slice_obj);
  let name := sd_name data in
  is_d ← _is_draft name;
  is_new ← (if is_d then _is_new_draft name else ret false);
  let data := if is_new
              then mkSliceDict (sd_name data) "Draft" (sd_dirty data) (sd_rest data)
              else data in
  let data := mkSliceDict (sd_name data) (sd_state data) dirty (sd_rest data) in
  graph ← call (build_graph fab data);
  ret (SliceView data graph).

(** [GET /slices/{slice_name}] *)
Definition get_slice (slice_name : string) : Route Response :=
  try_except
    (slice_obj ← _get_slice_obj slice_name;
     is_d ← _is_draft slice_name;
     (if negb is_d then _store_draft slice_name slice_obj false
      else ret tt);;
     _serialize slice_obj false)
    (λ e, raise (HTTPException 404 ("Slice not found: " ++ str e))).

(** [POST /slices] *)
Definition create_slice (name : string) : Route Response :=
  call (get_fablib fab);;
  try_except
    (slice_obj ← call (fablib_new_slice fab name);
     _store_draft name slice_obj true;;
     _serialize slice_obj false)
    (λ e, raise (HTTPException 500 (str e))).

(** [POST /slices/{slice_name}/submit] *)
Definition submit_slice (slice_name : string) : Route Response :=
  '(draft, is_new) ← _pop_draft slice_name;
  if is_not_None draft then
    try_except
      ((if is_new
        then call (on_object draft (slice_submit fab draft true))
        else call (on_object draft (slice_submit fab draft false)));;
       _serialize draft false)
      (λ e,
         _store_draft slice_name draft is_new;;
         raise (HTTPException 500 (str e)))
  else raise (HTTPException 400 "No pending changes to submit").

(** [POST /slices/{slice_name}/refresh] *)
Definition refresh_slice (slice_name : string) : Route Response :=
  _pop_draft slice_name;;
  call (get_fablib fab);;
  try_except
    (slice_obj ← call (fablib_get_slice fab slice_name);
     call (on_object slice_obj (slice_update fab slice_obj));;
     _store_draft slice_name slice_obj false;;
     _serialize slice_obj false)
    (λ e, raise (HTTPException 500 (str e))).

(** [DELETE /slices/{slice_name}] *)
Definition delete_slice (slice_name : string) : Route Response :=
  '(draft, is_new) ← _pop_draft slice_name;
  if is_not_None draft && is_new then ret (Status "deleted" slice_name)
  else
    call (get_fablib fab);;
    try_except
      (slice_obj ← call (fablib_get_slice fab slice_name);
       call (on_object slice_obj (slice_delete fab slice_obj));;
       ret (Status "deleted" slice_name))
      (λ e, raise (HTTPException 500 (str e))).

End Routes.

(** The store invariant of the parallel tables: a name has a flag entry
    exactly when it has a payload entry. *)
Definition tables_aligned (st : DraftStore) : Prop :=
  ∀ name, is_Some (_draft_is_new st !! name) ↔ is_Some (_draft_slices st !! name).

(** The store a computation leaves, and the value it returns. *)
Definition exec {A} (m : Route A) (st : DraftStore) : DraftStore := (m st).2.
Definition eval {A} (m : Route A) (st : DraftStore) : res A := (m st).1.

(** The record the store holds for a name, if any: payload and flag. *)
Definition record_of (name : string) (st : DraftStore) : option (pyobj * bool) :=
  match _draft_slices st !! name, _draft_is_new st !! name with
  | Some p, Some b => Some (p, b)
  | _, _ => None
  end.

(** *** A concrete upstream and store, for examples *)

(** An upstream in which slice 2 (held as ["exp2"]) cannot be submitted and
    ["gone"] cannot be fetched; everything else goes through. *)
Definition demo_fablib : Fablib :=
  mkFablib (Ok tt)
    (λ name, if bool_decide (name = "gone")
             then Raise (Exception "slice not found")
             else Ok (PySlice 7))
    (λ _, Ok (PySlice 1))
    (λ o _, match o with
            | PySlice 2 => Raise (Exception "orchestrator unavailable")
            | _ => Ok tt
            end)
    (λ _, Ok tt)
    (λ _, Ok tt)
    (λ _, Ok (mkSliceDict "exp2" "StableOK" false EmptyString))
    (λ _, Ok EmptyString).

Definition demo_store : DraftStore :=
  exec (_store_draft "exp2" (PySlice 2) false) empty_store.

End Slices.

(** ** The SSH terminal relay ([terminal.py]) *)

Module Terminal.

(** *** Key loader *)

(** The paramiko key classes tried by [_load_private_key], and the handle a
    successful decode produces. *)
Inductive key_class : Type := Ed25519Key | ECDSAKey | RSAKey.

Inductive PKey : Type := mkPKey (cls : key_class) (id : N).

Definition key_classes : list key_class := [Ed25519Key; ECDSAKey; RSAKey].

(** *** Resources, events and the session state *)

Inductive resource : Type := Bastion | Tunnel | Target | Shell.

(** Which call site sent a line to the client. *)
Inductive line_kind : Type := Progress | ErrorLine | ShellOutput.

#[local] Set Warnings "-register-all".

(** JSON values, as [json.loads] produces them.  The items of [JObj] are
    the entries of the resulting [dict] (keys distinct). *)
Inductive json : Type :=
  | JNull
  | JBool (b : bool)
  | JInt (z : Z)
  | JFloat (repr : string)
  | JStr (s : string)
  | JArr (l : list json)
  | JObj (items : list (string * json)).

(** What the session did, oldest first. *)
Inductive event : Type :=
  | EvAccept
  | EvSend (k : line_kind) (text : string)
  | EvWsClose
  | EvDecode (cls : key_class) (path : string)
  | EvOpen (r : resource)
  | EvClose (r : resource)
  | EvCreateTask
  | EvCancelTask
  | EvSleep
  | EvShellSend (data : json)
  | EvResize (cols rows : json) (ok : bool).

(** The locals [bastion], [target], [shell] of [terminal_ws] ([false] is
    [None]), the number of [send_text] calls made, whether [read_task] is
    still running, and the log of events. *)
Record Session : Type := mkSession {
  trace : list event;
  sends : nat;
  v_bastion : bool;
  v_target : bool;
  v_shell : bool;
  task_alive : bool
}.

Definition init_session : Session := mkSession [] 0 false false false false.

(** *** The environment *)

Record SshConfig : Type := mkSshConfig {
  bastion_host : string;
  bastion_username : string;
  bastion_key : string;
  slice_key : string
}.

(** One read attempt on the shell channel: [shell.recv_ready()] and
    [shell.recv(4096).decode("utf-8", errors="replace")]. *)
Record shell_read : Type := mkShellRead {
  recv_ready : res bool;
  recv : res string
}.

(** One turn of the event loop during the relay: either the polling task
    runs one iteration of its loop, or [websocket.receive_text()] completes
    in the receive loop.  [shell_call] is the outcome of the shell call the
    received message leads to, if it leads to one. *)
Inductive turn : Type :=
  | Poll (sr : shell_read)
  | Recv (msg : res string) (shell_call : res unit).

(** Everything the handler does not decide itself: the transport
    ([ws_send_text n] is the outcome of the [n]-th send), FABlib's answers
    for the node, the process environment, the key decoders, paramiko's
    connection calls and [close()]s, [json.loads], and the order in which
    the two duties of the relay get to run. *)
Record World : Type := mkWorld {
  ws_accept : res unit;
  ws_send_text : nat → res unit;
  ws_close : res unit;
  w_get_fablib : res unit;
  w_get_slice : res unit;
  w_get_node : res unit;
  w_management_ip : res string;
  w_username : res string;
  w_environ : gmap string string;
  w_get_bastion_username : res string;
  from_private_key_file : key_class → string → res PKey;
  bastion_connect : res unit;
  open_channel : res unit;
  target_connect : res unit;
  invoke_shell : res unit;
  setblocking : res unit;
  close : resource → res unit;
  json_loads : string → res json;
  schedule : list turn
}.

Abbreviation Sess := (M Session).

Definition emit (e : event) : Sess unit :=
  modify (λ s, mkSession (trace s ++ [e]) (sends s) (v_bastion s) (v_target s)
                         (v_shell s) (task_alive s)).

Definition set_bastion (b : bool) : Sess unit :=
  modify (λ s, mkSession (trace s) (sends s) b (v_target s) (v_shell s)
                         (task_alive s)).

Definition set_target_shell (t sh : bool) : Sess unit :=
  modify (λ s, mkSession (trace s) (sends s) (v_bastion s) t sh (task_alive s)).

Definition set_task (a : bool) : Sess unit :=
  modify (λ s, mkSession (trace s) (sends s) (v_bastion s) (v_target s)
                         (v_shell s) a).

Definition count_send : Sess nat :=
  s ← get;
  put (mkSession (trace s) (S (sends s)) (v_bastion s) (v_target s)
                 (v_shell s) (task_alive s));;
  ret (sends s).

(** *** Strings of the source *)

Definition CRLF : string := String "013"%char (String "010"%char EmptyString).
Definition ESC : string := String "027"%char EmptyString.

Definition non_empty (s : string) : bool :=
  match s with EmptyString => false | String _ _ => true end.

Fixpoint ends_with_slash (s : string) : bool :=
  match s with
  | EmptyString => false
  | String c EmptyString => bool_decide (c = "/"%char)
  | String _ s' => ends_with_slash s'
  end.

(** [os.path.join(a, b)] for a relative, non-empty [b]. *)
Definition os_path_join (a b : string) : string :=
  if non_empty a then
    if ends_with_slash a then a ++ b else a ++ "/" ++ b
  else b.

(** [str(x)] of an optional exception ([None] prints as ["None"]). *)
Definition str_opt (e : option exn) : string :=
  match e with Some e => str e | None => "None" end.

(** *** JSON access, as Python performs it on the parsed message *)

Fixpoint items_lookup (k : string) (items : list (string * json)) : option json :=
  match items with
  | [] => None
  | (k', v) :: rest => if bool_decide (k' = k) then Some v else items_lookup k rest
  end.

(** [parsed.get(k, dflt)]; only a [dict] has the method. *)
Definition py_get (parsed : json) (k : string) (dflt : json) : res json :=
  match parsed with
  | JObj items => Ok (default dflt (items_lookup k items))
  | _ => Raise (Exception "AttributeError: object has no attribute 'get'")
  end.

(** [parsed[k]] on a [dict]. *)
Definition py_getitem (parsed : json) (k : string) : res json :=
  match parsed with
  | JObj items =>
      match items_lookup k items with
      | Some v => Ok v
      | None => Raise (Exception ("KeyError: " ++ k))
      end
  | _ => Raise (Exception "TypeError: object is not subscriptable")
  end.

(** [v == s] for a string literal [s]. *)
Definition eq_str (v : json) (s : string) : bool :=
  match v with JStr t => bool_decide (t = s) | _ => false end.

Definition is_ok {A} (r : res A) : bool :=
  match r with Ok _ => true | Raise _ => false end.

Section Session.
Variable w : World.
Variables slice_name node_name : string.

(** *** Transport and resource primitives *)

(** [await websocket.send_text(text)]: the line is logged when the send
    went through. *)
Definition send_text (k : line_kind) (text : string) : Sess unit :=
  n ← count_send;
  call (ws_send_text w n);;
  emit (EvSend k text).

Definition websocket_close : Sess unit :=
  emit EvWsClose;; call (ws_close w).

(** [x.close()] on one of the locals: the attempt is logged, then the
    library decides.  On [None] the attribute lookup raises first. *)
Definition close_var (var : Session → bool) (r : resource) : Sess unit :=
  s ← get;
  if var s then emit (EvClose r);; call (close w r)
  else raise (Exception "'NoneType' object has no attribute 'close'").

(** *** [_load_private_key] *)

(** The [for cls in key_classes] loop with its [last_err]; the [raise] after
    the loop is the empty-list case. *)
Fixpoint load_loop (clss : list key_class) (path : string)
  (last_err : option exn) : Sess PKey :=
  match clss with
  | [] => raise (SSHException ("Cannot load key " ++ path ++ ": " ++ str_opt last_err))
  | cls :: rest =>
      emit (EvDecode cls path);;
      match from_private_key_file w cls path with
      | Ok key => ret key
      | Raise e => load_loop rest path (Some e)
      end
  end.

Definition _load_private_key (path : string) : Sess PKey :=
  load_loop key_classes path None.

(** *** [_get_ssh_config] *)

Definition environ_get (k dflt : string) : string :=
  default dflt (w_environ w !! k).

Definition _get_ssh_config : Sess SshConfig :=
  call (w_get_fablib w);;
  let config_dir := environ_get "FABRIC_CONFIG_DIR" "/fabric_config" in
  let bastion_key :=
    environ_get "FABRIC_BASTION_KEY_LOCATION"
                (os_path_join config_dir "fabric_bastion_key") in
  let slice_key :=
    environ_get "FABRIC_SLICE_PRIVATE_KEY_FILE"
                (os_path_join config_dir "slice_key") in
  bastion_username ←
    try_except (call (w_get_bastion_username w))
               (λ _, ret (environ_get "FABRIC_BASTION_USERNAME" EmptyString));
  let bastion_host :=
    environ_get "FABRIC_BASTION_HOST" "bastion.fabric-testbed.net" in
  ret (mkSshConfig bastion_host bastion_username bastion_key slice_key).

(** *** The three connection stages *)

Definition _connect_bastion (ssh_config : SshConfig) : Sess unit :=
  _load_private_key (bastion_key ssh_config);;
  call (bastion_connect w);;
  emit (EvOpen Bastion).

Definition _open_tunnel (management_ip : string) : Sess unit :=
  call (open_channel w);;
  emit (EvOpen Tunnel).

Definition _connect_target (management_ip username : string)
  (ssh_config : SshConfig) : Sess unit :=
  _load_private_key (slice_key ssh_config);;
  call (target_connect w);;
  emit (EvOpen Target);;
  call (invoke_shell w);;
  emit (EvOpen Shell);;
  call (setblocking w).

(** *** [terminal_ws]: set-up *)

(** How the first [try] block is left: by one of the [return]s, or by
    falling through to the relay. *)
Inductive flow : Type := Returned | Proceed.

Definition setup_body : Sess flow :=
  send_text Progress
    ("[terminal] Looking up node '" ++ node_name ++ "' in slice '"
       ++ slice_name ++ "'..." ++ CRLF);;
  call (w_get_fablib w);;
  call (w_get_slice w);;
  call (w_get_node w);;
  management_ip ← call (w_management_ip w);
  username ← call (w_username w);
  if negb (non_empty management_ip) then
    send_text ErrorLine
      (ESC ++ "[31m[terminal] Error: Node has no management IP." ++ ESC
         ++ "[0m" ++ CRLF);;
    websocket_close;;
    ret Returned
  else
    send_text Progress
      ("[terminal] Node found: " ++ username ++ "@" ++ management_ip ++ CRLF);;
    send_text Progress
      ("[terminal] Loading SSH keys and configuration..." ++ CRLF);;
    ssh_config ← _get_ssh_config;
    send_text Progress
      ("[terminal] Connecting to bastion " ++ bastion_host ssh_config
         ++ "..." ++ CRLF);;
    _connect_bastion ssh_config;;
    set_bastion true;;
    send_text Progress ("[terminal] Bastion connected." ++ CRLF);;
    send_text Progress
      ("[terminal] Opening tunnel to " ++ management_ip ++ ":22..." ++ CRLF);;
    _open_tunnel management_ip;;
    send_text Progress ("[terminal] Tunnel established." ++ CRLF);;
    send_text Progress
      ("[terminal] Authenticating as " ++ username ++ "@" ++ management_ip
         ++ "..." ++ CRLF);;
    _connect_target management_ip username ssh_config;;
    set_target_shell true true;;
    send_text Progress
      (ESC ++ "[32m[terminal] Connected." ++ ESC ++ "[0m" ++ CRLF ++ CRLF);;
    ret Proceed.

(** The [except Exception as e] clause of the set-up. *)
Definition setup_failed (e : exn) : Sess flow :=
  send_text ErrorLine
    (CRLF ++ ESC ++ "[31m[terminal] SSH connection failed: " ++ str e
       ++ ESC ++ "[0m" ++ CRLF);;
  websocket_close;;
  s ← get;
  (if v_bastion s then try_pass (close_var v_bastion Bastion) else ret tt);;
  ret Returned.

Definition setup : Sess flow := try_except setup_body setup_failed.

(** *** [terminal_ws]: relay *)

Definition _read_shell (sr : shell_read) : string :=
  match recv_ready sr with
  | Ok true =>
      match recv sr with
      | Ok data => data
      | Raise _ => EmptyString
      end
  | _ => EmptyString
  end.

(** One iteration of the [while True] of [read_ssh]; an exception ends the
    task ([break]). *)
Definition read_ssh_iteration (sr : shell_read) : Sess unit :=
  s ← get;
  if task_alive s then
    try_except
      (let data := _read_shell sr in
       if non_empty data then send_text ShellOutput data else emit EvSleep)
      (λ _, set_task false)
  else ret tt.

(** The body of the receive loop after [receive_text] and [json.loads]. *)
Definition dispatch (parsed : json) (shell_call : res unit) : Sess unit :=
  ty ← call (py_get parsed "type" JNull);
  if eq_str ty "input" then
    data ← call (py_getitem parsed "data");
    emit (EvShellSend data);;
    call shell_call
  else
    ty' ← call (py_get parsed "type" JNull);
    if eq_str ty' "resize" then
      cols ← call (py_get parsed "cols" (JInt 80));
      rows ← call (py_get parsed "rows" (JInt 24));
      emit (EvResize cols rows (is_ok shell_call));;
      call shell_call
    else ret tt.

(** One iteration of the receive loop: [true] to go round again, [false]
    for [break] (both [except] clauses break). *)
Definition receive_iteration (msg : res string) (shell_call : res unit)
  : Sess bool :=
  try_except
    (m ← call msg;
     parsed ← call (json_loads w m);
     dispatch parsed shell_call;;
     ret true)
    (λ _, ret false).

(** The receive loop, with the polling task interleaved as the schedule
    says.  When the schedule is used up the client has gone:
    [receive_text] raises [WebSocketDisconnect]. *)
Fixpoint relay_loop (sch : list turn) : Sess unit :=
  match sch with
  | [] => ret tt
  | Poll sr :: rest => read_ssh_iteration sr;; relay_loop rest
  | Recv msg shell_call :: rest =>
      again ← receive_iteration msg shell_call;
      if again then relay_loop rest else ret tt
  end.

(** The [finally] clause. *)
Definition teardown : Sess unit :=
  try_pass (close_var v_shell Shell);;
  try_pass (close_var v_target Target);;
  try_pass (close_var v_bastion Bastion).

(** [try: m finally: f]. *)
Definition try_finally {A} (m : Sess A) (f : Sess unit) : Sess A :=
  λ s, match m s with
       | (r, s') =>
           match f s' with
           | (Ok _, s'') => (r, s'')
           | (Raise e, s'') => (Raise e, s'')
           end
       end.

Definition relay : Sess unit :=
  try_finally
    (emit EvCreateTask;;
     set_task true;;
     relay_loop (schedule w);;
     emit EvCancelTask;;
     set_task false)
    teardown.

Definition terminal_ws : Sess unit :=
  call (ws_accept w);;
  emit EvAccept;;
  f ← setup;
  match f with
  | Returned => ret tt
  | Proceed => relay
  end.

End Session.

(** *** Observations on a trace *)

Definition run (w : World) (slice_name node_name : string) : res unit * Session :=
  terminal_ws w slice_name node_name init_session.

(** The resources on which [close()] was called, in order. *)
Fixpoint closes (t : list event) : list resource :=
  match t with
  | [] => []
  | EvClose r :: t' => r :: closes t'
  | _ :: t' => closes t'
  end.

(** The resources acquired, in order. *)
Fixpoint opens (t : list event) : list resource :=
  match t with
  | [] => []
  | EvOpen r :: t' => r :: opens t'
  | _ :: t' => opens t'
  end.

(** The error lines the client received. *)
Fixpoint error_lines (t : list event) : list string :=
  match t with
  | [] => []
  | EvSend ErrorLine text :: t' => text :: error_lines t'
  | _ :: t' => error_lines t'
  end.

(** The calls of [shell.resize_pty], with their arguments. *)
Fixpoint resizes (t : list event) : list (json * json) :=
  match t with
  | [] => []
  | EvResize c r _ :: t' => (c, r) :: resizes t'
  | _ :: t' => resizes t'
  end.

(** The size of the pseudo-terminal: [invoke_shell] opens it at paramiko's
    default 80x24, and every [resize_pty] that went through sets it. *)
Fixpoint terminal_size_from (cur : json * json) (t : list event) : json * json :=
  match t with
  | [] => cur
  | EvResize c r true :: t' => terminal_size_from (c, r) t'
  | _ :: t' => terminal_size_from cur t'
  end.

Definition terminal_size (t : list event) : json * json :=
  terminal_size_from (JInt 80, JInt 24) t.

(** *** Vocabulary for reasoning about sessions *)

(** Events other than a [close()] or the start of the polling task. *)
Definition neutral (e : event) : bool :=
  match e with
  | EvClose _ | EvCreateTask => false
  | _ => true
  end.

(** Events other than the start of the polling task. *)
Definition not_task (e : event) : bool :=
  match e with
  | EvCreateTask => false
  | _ => true
  end.

(** [s'] is [s] after more events, all allowed by [ok], with no local reset
    to [None]. *)
Definition extends (ok : event → bool) (s s' : Session) : Prop :=
  (∃ evs, trace s' = (trace s ++ evs)%list ∧ forallb ok evs = true)
  ∧ (v_bastion s = true → v_bastion s' = true)
  ∧ (v_target s = true → v_target s' = true)
  ∧ (v_shell s = true → v_shell s' = true).

(** A computation that only ever extends the session in that way, whether
    it returns or raises. *)
Definition quiet {A} (ok : event → bool) (m : Sess A) : Prop :=
  ∀ s, extends ok s (m s).2.

(** What matters of a session for the way it is aborted: what the client
    was told, what was opened and closed, whether the relay started, and
    the local [bastion]. *)
Inductive notice : Type := ErrorShown | TransportClosed.

Record View : Type := mkView {
  vw_notices : list notice;
  vw_opens : list resource;
  vw_closes : list resource;
  vw_started : bool;
  vw_bastion : bool
}.

(** The effect of one event on the view. *)
Definition see (e : event) (v : View) : View :=
  match e with
  | EvSend ErrorLine _ =>
      mkView (vw_notices v ++ [ErrorShown]) (vw_opens v) (vw_closes v)
             (vw_started v) (vw_bastion v)
  | EvWsClose =>
      mkView (vw_notices v ++ [TransportClosed]) (vw_opens v) (vw_closes v)
             (vw_started v) (vw_bastion v)
  | EvOpen r =>
      mkView (vw_notices v) (vw_opens v ++ [r]) (vw_closes v)
             (vw_started v) (vw_bastion v)
  | EvClose r =>
      mkView (vw_notices v) (vw_opens v) (vw_closes v ++ [r])
             (vw_started v) (vw_bastion v)
  | EvCreateTask =>
      mkView (vw_notices v) (vw_opens v) (vw_closes v) true (vw_bastion v)
  | _ => v
  end.

Definition view_of_trace (t : list event) (bastion : bool) : View :=
  fold_left (λ v e, see e v) t (mkView [] [] [] false bastion).

Definition view (s : Session) : View := view_of_trace (trace s) (v_bastion s).

Definition bind_bastion (v : View) : View :=
  mkView (vw_notices v) (vw_opens v) (vw_closes v) (vw_started v) true.

(** Events the view does not record. *)
Definition invisible (e : event) : bool :=
  match e with
  | EvSend ErrorLine _ | EvWsClose | EvOpen _ | EvClose _ | EvCreateTask => false
  | _ => true
  end.

(** A computation the view cannot tell from doing nothing. *)
Definition silent {A} (m : Sess A) : Prop := ∀ s, view (m s).2 = view s.

(** A computation that always returns and changes the view by [f]. *)
Definition acts (m : Sess unit) (f : View → View) : Prop :=
  ∀ s, (m s).1 = Ok tt ∧ view (m s).2 = f (view s).

(** Hoare triples on views, with a postcondition for returning and one for
    raising. *)
Definition hoare {A} (P : View → Prop) (m : Sess A)
  (Qn : A → View → Prop) (Qe : View → Prop) : Prop :=
  ∀ s, P (view s) →
       match (m s).1 with
       | Ok a => Qn a (view (m s).2)
       | Raise _ => Qe (view (m s).2)
       end.

(** The client stays connected: accepting, sending and closing go through. *)
Definition reliable_transport (w : World) : Prop :=
  ws_accept w = Ok tt ∧ (∀ n, ws_send_text w n = Ok tt) ∧ ws_close w = Ok tt.

(** The views in which a set-up stage may raise: nothing told to the
    client yet, nothing closed, the stages opened in order, and the local
    [bastion] bound exactly when the bastion was opened. *)
Definition failing_view (v : View) : Prop :=
  vw_notices v = []
  ∧ vw_closes v = []
  ∧ vw_started v = false
  ∧ ((vw_opens v = [] ∧ vw_bastion v = false)
     ∨ (vw_opens v `prefix_of` [Bastion; Tunnel; Target; Shell]
        ∧ Bastion ∈ vw_opens v ∧ vw_bastion v = true)).

(** The views an aborted session may end in: one error line and then the
    transport closed, the stages opened in order, and the bastion closed if
    it was opened. *)
Definition aborted_view (v : View) : Prop :=
  vw_notices v = [ErrorShown; TransportClosed]
  ∧ vw_started v = false
  ∧ ((vw_opens v = [] ∧ vw_closes v = [])
     ∨ (vw_opens v `prefix_of` [Bastion; Tunnel; Target; Shell]
        ∧ Bastion ∈ vw_opens v ∧ vw_closes v = [Bastion])).

(** *** Concrete worlds, for examples *)

(** A site where the keys are ECDSA keys, the node is up and the client
    stays connected; the shell request, the [close()] calls and the
    schedule are left to choose.  The demo [json.loads] knows two message
    texts. *)
Definition demo_world (shell_request : res unit)
  (close_outcome : resource → res unit) (sch : list turn) : World :=
  mkWorld (Ok tt) (λ _, Ok tt) (Ok tt)
    (Ok tt) (Ok tt) (Ok tt) (Ok "10.0.0.5") (Ok "ubuntu")
    ∅ (Ok "alice")
    (λ cls _, match cls with
              | ECDSAKey => Ok (mkPKey ECDSAKey 1)
              | _ => Raise (SSHException "not a valid private key file")
              end)
    (Ok tt) (Ok tt) (Ok tt) shell_request (Ok tt) close_outcome
    (λ text,
       if bool_decide (text = "resize 120 cols") then
         Ok (JObj [("type", JStr "resize"); ("cols", JInt 120)])
       else if bool_decide (text = "input ls") then
         Ok (JObj [("type", JStr "input"); ("data", JStr "ls")])
       else Raise (Exception "Expecting value"))
    sch.

(** The shell request is refused after the target has authenticated. *)
Definition shell_refused_world : World :=
  demo_world (Raise (SSHException "Channel closed.")) (λ _, Ok tt) [].

(** A session of two client messages and one poll, in which closing the
    shell and closing the target both raise. *)
Definition stubborn_close_world : World :=
  demo_world (Ok tt)
    (λ r, match r with
          | Bastion => Ok tt
          | _ => Raise (Exception "socket is closed")
          end)
    [Recv (Ok "input ls") (Ok tt);
     Poll (mkShellRead (Ok true) (Ok "file.txt"));
     Recv (Ok "resize 120 cols") (Ok tt)].

End Terminal.

(** ** The slice routes as one API *)

Module SliceApi.
Import Slices.

(** The requests that touch the draft store, as the router dispatches them
    to [get_slice], [create_slice], [submit_slice], [refresh_slice] and
    [delete_slice]. *)
Inductive request : Type :=
  | Get (slice_name : string)
  | Create (name : string)
  | Submit (slice_name : string)
  | Refresh (slice_name : string)
  | Delete (slice_name : string).

Definition target (r : request) : string :=
  match r with
  | Get n | Create n | Submit n | Refresh n | Delete n => n
  end.

Definition serve (fab : Fablib) (r : request) : Route Response :=
  match r with
  | Get n => get_slice fab n
  | Create n => create_slice fab n
  | Submit n => submit_slice fab n
  | Refresh n => refresh_slice fab n
  | Delete n => delete_slice fab n
  end.

(** A sequence of requests, each answered against the upstream as it is at
    that moment; the store is what carries over. *)
Fixpoint serve_all (reqs : list (Fablib * request)) (st : DraftStore) : DraftStore :=
  match reqs with
  | [] => st
  | (fab, r) :: rest => serve_all rest (exec (serve fab r) st)
  end.

(** What one request may do to the store: nothing, take the record of its
    name, or put a record under its name (after taking it or not). *)
Definition touches_only (name : string) (st st' : DraftStore) : Prop :=
  st' = st
  ∨ st' = exec (_pop_draft name) st
  ∨ (∃ o b, st' = exec (_store_draft name o b) st)
  ∨ (∃ o b, st' = exec (_store_draft name o b) (exec (_pop_draft name) st)).

(** An upstream on which nothing works. *)
Definition dead_fablib : Fablib :=
  mkFablib (Raise (Exception "FABRIC is not configured."))
    (λ _, Raise (Exception "unreachable"))
    (λ _, Raise (Exception "unreachable"))
    (λ _ _, Raise (Exception "unreachable"))
    (λ _, Raise (Exception "unreachable"))
    (λ _, Raise (Exception "unreachable"))
    (λ _, Raise (Exception "unreachable"))
    (λ _, Raise (Exception "unreachable")).

(** The same serializer, with FABlib itself out of reach. *)
Definition offline (fab : Fablib) : Fablib :=
  mkFablib (Raise (Exception "FABRIC is not configured."))
    (λ _, Raise (Exception "unreachable"))
    (λ _, Raise (Exception "unreachable"))
    (λ _ _, Raise (Exception "unreachable"))
    (λ _, Raise (Exception "unreachable"))
    (λ _, Raise (Exception "unreachable"))
    (slice_to_dict fab) (build_graph fab).

(** An upstream that accepts slice 2 again (compare [demo_fablib]). *)
Definition healed_fablib : Fablib :=
  mkFablib (Ok tt) (λ _, Ok (PySlice 7)) (λ _, Ok (PySlice 1))
    (λ _ _, Ok tt) (λ _, Ok tt) (λ _, Ok tt)
    (λ _, Ok (mkSliceDict "exp2" "StableOK" false EmptyString))
    (λ _, Ok EmptyString).

End SliceApi.

(** ** Observations on the relay *)

Module Relay.
Import Terminal.

(** What was written to the shell, in order. *)
Fixpoint shell_sends (t : list event) : list json :=
  match t with
  | [] => []
  | EvShellSend data :: t' => data :: shell_sends t'
  | _ :: t' => shell_sends t'
  end.

(** The shell output the client received, in order. *)
Fixpoint outputs (t : list event) : list string :=
  match t with
  | [] => []
  | EvSend ShellOutput text :: t' => text :: outputs t'
  | _ :: t' => outputs t'
  end.

(** What the polling turns of a schedule read from the shell, in order;
    reads that yield nothing are left out. *)
Fixpoint polled (sch : list turn) : list string :=
  match sch with
  | [] => []
  | Poll sr :: rest =>
      if non_empty (_read_shell sr) then _read_shell sr :: polled rest
      else polled rest
  | Recv _ _ :: rest => polled rest
  end.

(** What the client was told about the end of the session, in order. *)
Fixpoint client_notices (t : list event) : list notice :=
  match t with
  | [] => []
  | EvSend ErrorLine _ :: t' => ErrorShown :: client_notices t'
  | EvWsClose :: t' => TransportClosed :: client_notices t'
  | _ :: t' => client_notices t'
  end.

(** The session [s] with more events logged. *)
Definition logged (s : Session) (evs : list event) : Session :=
  mkSession (trace s ++ evs) (sends s) (v_bastion s) (v_target s) (v_shell s)
            (task_alive s).

(** A session at the start of the relay: connected, the polling task
    running. *)
Definition relay_start : Session := mkSession [EvCreateTask] 0 true true true true.

(** Whether the receive loop goes round again after a turn. *)
Definition goes_on (w : World) (t : turn) : bool :=
  match t with
  | Poll _ => true
  | Recv msg shell_call =>
      match (receive_iteration w msg shell_call init_session).1 with
      | Ok again => again
      | Raise _ => false
      end
  end.


End Relay.

(** ** Slice validation ([validate_slice] in [slices.py]) *)

Module Validate.
Import Slices.

(** A value as [slice_to_dict] leaves it in the dict: whatever the FABlib
    getter returned, or the serializer's default.  A float and an object of
    another type are known by what the validator observes of them: how they
    compare, whether they are true, and their text. *)
Inductive pyval : Type :=
  | VStr (s : string)
  | VInt (z : Z)
  | VBool (b : bool)
  | VFloat (below_one nonzero : bool) (text : string)
  | VObj (truthy : bool) (text : string).

(** [str(v)], as the f-strings print it. *)
Definition py_str (v : pyval) : string :=
  match v with
  | VStr s => s
  | VInt z => pretty z
  | VBool true => "True"
  | VBool false => "False"
  | VFloat _ _ text => text
  | VObj _ text => text
  end.

(** [bool(v)]. *)
Definition py_truth (v : pyval) : bool :=
  match v with
  | VStr s => Terminal.non_empty s
  | VInt z => negb (z =? 0)%Z
  | VBool b => b
  | VFloat _ nonzero _ => nonzero
  | VObj truthy _ => truthy
  end.

(** [v in (lit, ...)] for a tuple of string literals. *)
Definition py_in_strings (v : pyval) (lits : list string) : bool :=
  match v with
  | VStr s => bool_decide (s ∈ lits)
  | _ => false
  end.

(** [isinstance(v, (int, float)) and v < 1]; a [bool] is an [int]. *)
Definition number_below_one (v : pyval) : bool :=
  match v with
  | VInt z => (z <? 1)%Z
  | VBool b => negb b
  | VFloat below_one _ _ => below_one
  | _ => false
  end.

(** [sub in s] on strings. *)
Fixpoint contains (sub s : string) : bool :=
  match s with
  | EmptyString => String.prefix sub EmptyString
  | String _ s' => String.prefix sub s || contains sub s'
  end.

(** The keys of the serialized slice that the validator reads.  The
    serializer always sets them, so the defaults of the [.get] calls never
    apply; ["type"] is a string and the collections are lists. *)
Record IfaceDict : Type := mkIface {
  if_name : pyval;
  if_network_name : pyval
}.

Record CompDict : Type := mkComp {
  comp_interfaces : list IfaceDict
}.

Record NodeDict : Type := mkNode {
  nd_name : pyval;
  nd_site : pyval;
  nd_cores : pyval;
  nd_ram : pyval;
  nd_disk : pyval;
  nd_components : list CompDict
}.

Record NetDict : Type := mkNet {
  net_name : pyval;
  net_type : string;
  net_interfaces : list IfaceDict
}.

Record SliceData : Type := mkSliceData {
  sl_nodes : list NodeDict;
  sl_networks : list NetDict
}.

Record Issue : Type := mkIssue {
  severity : string;
  message : string;
  remedy : string
}.

Record Report : Type := mkReport {
  valid : bool;
  issues : list Issue
}.

(** The checks on one node, in the order of the source. *)
Definition node_issues (node : NodeDict) : list Issue :=
  let name := py_str (nd_name node) in
  let site := nd_site node in
  (if negb (py_truth site) || py_in_strings site ["None"; "none"; EmptyString]
   then [mkIssue "error" ("Node '" ++ name ++ "' has no site assigned.")
                 ("Set a site for node '" ++ name ++ "' in the editor panel.")]
   else [])
  ++ (if number_below_one (nd_cores node)
      then [mkIssue "error"
              ("Node '" ++ name ++ "' has " ++ py_str (nd_cores node) ++ " cores.")
              ("Set at least 1 core for node '" ++ name ++ "'.")]
      else [])
  ++ (if number_below_one (nd_ram node)
      then [mkIssue "error"
              ("Node '" ++ name ++ "' has " ++ py_str (nd_ram node) ++ " GB RAM.")
              ("Set at least 1 GB RAM for node '" ++ name ++ "'.")]
      else [])
  ++ (if number_below_one (nd_disk node)
      then [mkIssue "error"
              ("Node '" ++ name ++ "' has " ++ py_str (nd_disk node) ++ " GB disk.")
              ("Set at least 1 GB disk for node '" ++ name ++ "'.")]
      else []).

(** The check on one network. *)
Definition network_issues (net : NetDict) : list Issue :=
  let net_name := py_str (net_name net) in
  let iface_count := List.length (net_interfaces net) in
  if contains "PTP" (net_type net) then
    if negb (iface_count =? 2)%nat
    then [mkIssue "error"
            ("Network '" ++ net_name ++ "' (" ++ net_type net ++ ") has "
               ++ pretty iface_count ++ " interface(s), needs exactly 2.")
            ("Connect exactly 2 interfaces to '" ++ net_name ++ "'.")]
    else []
  else
    if (iface_count <? 2)%nat
    then [mkIssue "error"
            ("Network '" ++ net_name ++ "' (" ++ net_type net ++ ") has "
               ++ pretty iface_count ++ " interface(s), needs at least 2.")
            ("Connect at least 2 interfaces to '" ++ net_name ++ "'.")]
    else [].

(** The warnings for the interfaces of one node that are on no network. *)
Definition unconnected_issues (node : NodeDict) : list Issue :=
  flat_map
    (λ comp,
       flat_map
         (λ iface,
            if negb (py_truth (if_network_name iface))
            then [mkIssue "warning"
                    ("Interface '" ++ py_str (if_name iface) ++ "' on node '"
                       ++ py_str (nd_name node)
                       ++ "' is not connected to a network.")
                    "Connect the interface to a network, or remove the component if unused."]
            else [])
         (comp_interfaces comp))
    (nd_components node).

Definition is_error (i : Issue) : bool := bool_decide (severity i = "error").

(** The body of [validate_slice] after the serialization. *)
Definition validate (data : SliceData) : Report :=
  let nodes := sl_nodes data in
  let networks := sl_networks data in
  let issues :=
    ((match nodes with
      | [] => [mkIssue "error" "Slice has no nodes."
                       "Add at least one node using the editor panel."]
      | _ => []
      end)
     ++ flat_map node_issues nodes
     ++ flat_map network_issues networks
     ++ flat_map unconnected_issues nodes)%list in
  mkReport (List.length (filter (λ i, is_error i = true) issues) =? 0)%nat issues.

(** [GET /slices/{slice_name}/validate]; [slice_data] stands for the nodes
    and networks of what [slice_to_dict] returns. *)
Definition validate_slice (fab : Fablib) (slice_data : pyobj → res SliceData)
  (slice_name : string) : Route Report :=
  slice_obj ← try_except (_get_slice_obj fab slice_name)
                (λ e, raise (HTTPException 404 ("Slice not found: " ++ str e)));
  data ← call (slice_data slice_obj);
  ret (validate data).



(** The interfaces of the nodes' components that name no network. *)
Definition unconnected (data : SliceData) : list (NodeDict * IfaceDict) :=
  flat_map
    (λ node,
       flat_map
         (λ comp,
            flat_map (λ iface, if py_truth (if_network_name iface) then []
                               else [(node, iface)])
                     (comp_interfaces comp))
         (nd_components node))
    (sl_nodes data).

(** The warning raised for an interface of a node. *)
Definition warning_for (ni : NodeDict * IfaceDict) : Issue :=
  mkIssue "warning"
    ("Interface '" ++ py_str (if_name ni.2) ++ "' on node '"
       ++ py_str (nd_name ni.1) ++ "' is not connected to a network.")
    "Connect the interface to a network, or remove the component if unused.".

(** Two nodes on a point-to-point link; the second has a spare port. *)
Definition demo_data : SliceData :=
  let port n net := mkIface (VStr n) (VStr net) in
  mkSliceData
    [mkNode (VStr "n1") (VStr "STAR") (VInt 2) (VInt 8) (VInt 10)
       [mkComp [port "n1-nic-p1" "link"]];
     mkNode (VStr "n2") (VStr "TACC") (VInt 2) (VInt 8) (VInt 10)
       [mkComp [port "n2-nic-p1" "link"; port "n2-nic-p2" EmptyString]]]
    [mkNet (VStr "link") "L2PTP" [port "n1-nic-p1" "link"; port "n2-nic-p1" "link"]].

End Validate.

(** ** The editing routes of [slices.py] *)

Module SliceEdit.
Import Slices.

(** The request bodies. *)
Record CreateNodeRequest : Type := mkCreateNode {
  cn_name : string;
  cn_site : string;
  cn_cores : Z;
  cn_ram : Z;
  cn_disk : Z;
  cn_image : string
}.

Record UpdateNodeRequest : Type := mkUpdateNode {
  un_site : option string;
  un_cores : option Z;
  un_ram : option Z;
  un_disk : option Z;
  un_image : option string
}.

Record CreateComponentRequest : Type := mkCreateComponent {
  cc_name : string;
  cc_model : string
}.

Record CreateNetworkRequest : Type := mkCreateNetwork {
  cw_name : string;
  cw_type : string;
  cw_interfaces : list string
}.

(** The keyword arguments of [slice_obj.add_node]; [site] is present only
    when the request names one. *)
Record NodeKwargs : Type := mkNodeKwargs {
  kw_name : string;
  kw_cores : Z;
  kw_ram : Z;
  kw_disk : Z;
  kw_image : string;
  kw_site : option string
}.

Inductive capacity : Type := Cores (n : Z) | Ram (n : Z) | Disk (n : Z).

(** The calls that change a FABlib object (nodes, components, interfaces
    and networks are references). *)
Inductive edit_call : Type :=
  | AddNode (slice_obj : pyobj) (kw : NodeKwargs)
  | NodeDelete (node : N)
  | SetSite (node : N) (site : string)
  | SetCapacities (node : N) (c : capacity)
  | SetImage (node : N) (image : string)
  | AddComponent (node : N) (model name : string)
  | ComponentDelete (comp : N)
  | AddL2Network (slice_obj : pyobj) (name : string) (interfaces : list N)
                 (type : string)
  | NetworkDelete (net : N).

(** FABlib's side of the editing routes: what each lookup returns and
    whether each change is accepted. *)
Record Objects : Type := mkObjects {
  accepts : edit_call → res unit;
  slice_get_node : pyobj → string → res N;
  node_get_component : N → string → res N;
  slice_get_network : pyobj → string → res N;
  slice_get_nodes : pyobj → res (list N);
  node_get_interfaces : N → res (list N);
  iface_get_name : N → res string
}.

(** The draft store together with the log of the changes asked of FABlib,
    oldest first. *)
Record EditState : Type := mkEditState {
  es_store : DraftStore;
  es_calls : list edit_call
}.

Abbreviation Edit := (M EditState).

(** A route helper that works on the store alone. *)
Definition on_store {A} (m : Route A) : Edit A :=
  λ s, let '(r, st') := m (es_store s) in (r, mkEditState st' (es_calls s)).

Section Routes.
Variable fab : Fablib.
Variable obj : Objects.

(** A changing call: logged, then FABlib decides. *)
Definition change (c : edit_call) : Edit unit :=
  modify (λ s, mkEditState (es_store s) (es_calls s ++ [c]));;
  call (accepts obj c).

(** A method of the slice object; on [None] the attribute lookup raises. *)
Definition slice_method {A} (slice_obj : pyobj) (m : Edit A) : Edit A :=
  match slice_obj with
  | PyNone => raise (Exception "'NoneType' object has no attribute")
  | PySlice _ => m
  end.

Definition failed_500 {A} (e : exn) : Edit A := raise (HTTPException 500 (str e)).

(** [POST /slices/{slice_name}/nodes] *)
Definition add_node (slice_name : string) (req : CreateNodeRequest)
  : Edit Response :=
  try_except
    (slice_obj ← on_store (_get_slice_obj fab slice_name);
     let kwargs :=
       mkNodeKwargs (cn_name req) (cn_cores req) (cn_ram req) (cn_disk req)
         (cn_image req)
         (if bool_decide (cn_site req = "auto") then None else Some (cn_site req)) in
     slice_method slice_obj (change (AddNode slice_obj kwargs));;
     on_store (_serialize fab slice_obj true))
    failed_500.

(** [DELETE /slices/{slice_name}/nodes/{node_name}] *)
Definition remove_node (slice_name node_name : string) : Edit Response :=
  try_except
    (slice_obj ← on_store (_get_slice_obj fab slice_name);
     node ← slice_method slice_obj (call (slice_get_node obj slice_obj node_name));
     change (NodeDelete node);;
     on_store (_serialize fab slice_obj true))
    failed_500.

(** [if x is not None: setter(x)]. *)
Definition when_given {A} (x : option A) (setter : A → Edit unit) : Edit unit :=
  match x with
  | Some v => setter v
  | None => ret tt
  end.

(** [PUT /slices/{slice_name}/nodes/{node_name}] *)
Definition update_node (slice_name node_name : string) (req : UpdateNodeRequest)
  : Edit Response :=
  try_except
    (slice_obj ← on_store (_get_slice_obj fab slice_name);
     node ← slice_method slice_obj (call (slice_get_node obj slice_obj node_name));
     when_given (un_site req) (λ v, change (SetSite node v));;
     when_given (un_cores req) (λ v, change (SetCapacities node (Cores v)));;
     when_given (un_ram req) (λ v, change (SetCapacities node (Ram v)));;
     when_given (un_disk req) (λ v, change (SetCapacities node (Disk v)));;
     when_given (un_image req) (λ v, change (SetImage node v));;
     on_store (_serialize fab slice_obj true))
    failed_500.

(** [POST /slices/{slice_name}/nodes/{node_name}/components] *)
Definition add_component (slice_name node_name : string)
  (req : CreateComponentRequest) : Edit Response :=
  try_except
    (slice_obj ← on_store (_get_slice_obj fab slice_name);
     node ← slice_method slice_obj (call (slice_get_node obj slice_obj node_name));
     change (AddComponent node (cc_model req) (cc_name req));;
     on_store (_serialize fab slice_obj true))
    failed_500.

(** [DELETE /slices/{slice_name}/nodes/{node_name}/components/{comp_name}] *)
Definition remove_component (slice_name node_name comp_name : string)
  : Edit Response :=
  try_except
    (slice_obj ← on_store (_get_slice_obj fab slice_name);
     node ← slice_method slice_obj (call (slice_get_node obj slice_obj node_name));
     comp ← call (node_get_component obj node comp_name);
     change (ComponentDelete comp);;
     on_store (_serialize fab slice_obj true))
    failed_500.

(** A [for] loop that carries the list being built. *)
Fixpoint for_each {A B} (l : list A) (body : B → A → Edit B) (acc : B) : Edit B :=
  match l with
  | [] => ret acc
  | x :: rest => acc' ← body acc x; for_each rest body acc'
  end.

(** The three nested loops of [add_network] that turn interface names into
    interface objects. *)
Definition resolve_interfaces (slice_obj : pyobj) (names : list string)
  : Edit (list N) :=
  for_each names
    (λ ifaces iface_name,
       nodes ← slice_method slice_obj (call (slice_get_nodes obj slice_obj));
       for_each nodes
         (λ ifaces node,
            node_ifaces ← call (node_get_interfaces obj node);
            for_each node_ifaces
              (λ ifaces iface,
                 name ← call (iface_get_name obj iface);
                 ret (if bool_decide (name = iface_name)
                      then (ifaces ++ [iface])%list else ifaces))
              ifaces)
         ifaces)
    [].

(** [POST /slices/{slice_name}/networks] *)
Definition add_network (slice_name : string) (req : CreateNetworkRequest)
  : Edit Response :=
  try_except
    (slice_obj ← on_store (_get_slice_obj fab slice_name);
     ifaces ← resolve_interfaces slice_obj (cw_interfaces req);
     slice_method slice_obj
       (change (AddL2Network slice_obj (cw_name req) ifaces (cw_type req)));;
     on_store (_serialize fab slice_obj true))
    failed_500.

(** [DELETE /slices/{slice_name}/networks/{net_name}] *)
Definition remove_network (slice_name net_name : string) : Edit Response :=
  try_except
    (slice_obj ← on_store (_get_slice_obj fab slice_name);
     net ← slice_method slice_obj (call (slice_get_network obj slice_obj net_name));
     change (NetworkDelete net);;
     on_store (_serialize fab slice_obj true))
    failed_500.

End Routes.

(** The editing requests, as the router dispatches them. *)
Inductive edit_request : Type :=
  | ReqAddNode (req : CreateNodeRequest)
  | ReqRemoveNode (node_name : string)
  | ReqUpdateNode (node_name : string) (req : UpdateNodeRequest)
  | ReqAddComponent (node_name : string) (req : CreateComponentRequest)
  | ReqRemoveComponent (node_name comp_name : string)
  | ReqAddNetwork (req : CreateNetworkRequest)
  | ReqRemoveNetwork (net_name : string).

Definition serve_edit (fab : Fablib) (obj : Objects) (slice_name : string)
  (r : edit_request) : Edit Response :=
  match r with
  | ReqAddNode req => add_node fab obj slice_name req
  | ReqRemoveNode n => remove_node fab obj slice_name n
  | ReqUpdateNode n req => update_node fab obj slice_name n req
  | ReqAddComponent n req => add_component fab obj slice_name n req
  | ReqRemoveComponent n c => remove_component fab obj slice_name n c
  | ReqAddNetwork req => add_network fab obj slice_name req
  | ReqRemoveNetwork n => remove_network fab obj slice_name n
  end.

(** The setter calls an update request asks for, in the order the route
    makes them. *)
Definition wanted_changes (node : N) (req : UpdateNodeRequest) : list edit_call :=
  (match un_site req with Some v => [SetSite node v] | None => [] end)
  ++ (match un_cores req with Some v => [SetCapacities node (Cores v)] | None => [] end)
  ++ (match un_ram req with Some v => [SetCapacities node (Ram v)] | None => [] end)
  ++ (match un_disk req with Some v => [SetCapacities node (Disk v)] | None => [] end)
  ++ (match un_image req with Some v => [SetImage node v] | None => [] end).

(** The calls made when a list of changes is asked one after the other and
    the first refusal ends the sequence: the calls up to and including the
    refused one, and the refusal. *)
Fixpoint until_refused (obj : Objects) (l : list edit_call)
  : list edit_call * option exn :=
  match l with
  | [] => ([], None)
  | c :: rest =>
      match accepts obj c with
      | Ok _ => let '(done, e) := until_refused obj rest in (c :: done, e)
      | Raise e => ([c], Some e)
      end
  end.

(** The interfaces, among [all], that bear one of the requested names: for
    each requested name in turn, every interface of that name. *)
Definition interfaces_named (name_of : N → string) (all : list N)
  (names : list string) : list N :=
  flat_map (λ name, List.filter (λ i, bool_decide (name_of i = name)) all) names.

(** A computation that leaves the draft store alone and only adds to the
    log of changes. *)
Definition keeps_store {A} (m : Edit A) : Prop :=
  ∀ s, es_store (m s).2 = es_store s
       ∧ es_calls s `prefix_of` es_calls (m s).2.

(** A testbed stand-in: node 1 has interfaces 10 and 11, node 2 has 20;
    their names are "p1", "p2", "p1".  Setting the RAM is refused. *)
Definition demo_objects : Objects :=
  mkObjects
    (λ c, match c with
          | SetCapacities _ (Ram _) => Raise (Exception "insufficient RAM")
          | _ => Ok tt
          end)
    (λ _ _, Ok 1%N) (λ _ _, Ok 5%N) (λ _ _, Ok 9%N)
    (λ _, Ok [1%N; 2%N])
    (λ n, Ok (match n with 1%N => [10%N; 11%N] | 2%N => [20%N] | _ => [] end))
    (λ i, Ok (match i with 11%N => "p2" | _ => "p1" end)).

Definition demo_edit_state : EditState := mkEditState demo_store [].

End SliceEdit.

(** ** The log stream of [terminal.py] *)

Module Logs.
Import Py.

(** Text read from the log file and sent to the client. *)
Abbreviation text := (list ascii).

(** What one pass of the tail loop finds: [os.path.isfile], [os.path.getsize]
    and, for a start position, the outcome of
    [open; seek(pos); read(); tell()]. *)
Record Turn : Type := mkTurn {
  isfile : bool;
  getsize : res nat;
  read_from : nat → res (text * nat)
}.

(** The rest of the environment of one connection: the websocket, the log
    file path the rc file stage arrives at (or the exception it raises), and
    the log file as found before the loop. *)
Record World : Type := mkWorld {
  accept : res unit;
  configured_log_file : res string;
  send_text : nat → text → res unit;
  start_isfile : bool;
  readlines : res (list text);
  start_getsize : res nat
}.

(** The local [file_pos] (not read before it is assigned) and the texts
    handed to [send_text], oldest first. *)
Record Stream : Type := mkStream {
  file_pos : nat;
  sent : list text
}.

Definition fresh : Stream := mkStream 0 [].

Definition set_file_pos (n : nat) : M Stream unit :=
  modify (λ s, mkStream n (sent s)).

(** [await websocket.send_text(t)]; the outcome may depend on how many
    sends came before. *)
Definition websocket_send_text (w : World) (t : text) : M Stream unit :=
  s ← get;
  put (mkStream (file_pos s) (sent s ++ [t])%list);;
  call (send_text w (List.length (sent s)) t).

(** [lines[-200:] if len(lines) > 200 else lines] *)
Definition last_lines (lines : list text) : list text :=
  if (200 <? List.length lines)%nat
  then drop (List.length lines - 200) lines
  else lines.

Fixpoint send_all (w : World) (lines : list text) : M Stream unit :=
  match lines with
  | [] => ret tt
  | ln :: rest => websocket_send_text w ln;; send_all w rest
  end.

Definition waiting_notice (log_file : string) : text :=
  list_ascii_of_string
    ("[log] Waiting for log file: " ++ log_file ++ String "010"%char EmptyString).

(** The part of [logs_ws] before the loop. *)
Definition start (w : World) (log_file : string) : M Stream unit :=
  if start_isfile w then
    lines ← call (readlines w);
    send_all w (last_lines lines);;
    size ← call (start_getsize w);
    set_file_pos size
  else
    websocket_send_text w (waiting_notice log_file);;
    set_file_pos 0.

(** One pass of the body of [while True]. *)
Definition tail_turn (w : World) (t : Turn) : M Stream unit :=
  if negb (isfile t) then ret tt
  else
    size ← call (getsize t);
    s ← get;
    (if (size <? file_pos s)%nat then set_file_pos 0 else ret tt);;
    s ← get;
    if (file_pos s <? size)%nat then
      '(new_data, tell) ← call (read_from t (file_pos s));
      set_file_pos tell;;
      match new_data with
      | [] => ret tt
      | _ => websocket_send_text w new_data
      end
    else ret tt.

(** The loop over the passes observed; an exception ends it. *)
Fixpoint tail_loop (w : World) (sch : list Turn) : M Stream unit :=
  match sch with
  | [] => ret tt
  | t :: rest => tail_turn w t;; tail_loop w rest
  end.

(** [GET /ws/logs] *)
Definition logs_ws (w : World) (sch : list Turn) : M Stream unit :=
  call (accept w);;
  log_file ← call (configured_log_file w);
  try_except
    (start w log_file;; tail_loop w sch)
    (λ _, ret tt).



(** Every text handed to [send_text], except possibly the last one, went
    through. *)
Definition all_but_last_delivered (w : World) (s : Stream) : Prop :=
  ∀ k t, sent s !! k = Some t → (S k < List.length (sent s))%nat →
         send_text w k t = Ok tt.

Definition all_delivered (w : World) (s : Stream) : Prop :=
  ∀ k t, sent s !! k = Some t → send_text w k t = Ok tt.


(** A client that accepts every send, and a log file of two lines. *)
Definition steady_world : World :=
  mkWorld (Ok tt) (Ok "/tmp/fablib/fablib.log") (λ _ _, Ok tt)
    true (Ok [list_ascii_of_string "a"; list_ascii_of_string "b"]) (Ok 4%nat).

(** A computation that sends nothing more once a send has failed. *)
Definition careful {A} (w : World) (m : M Stream A) : Prop :=
  ∀ s, all_delivered w s →
       match m s with
       | (Ok _, s') => all_delivered w s'
       | (Raise _, s') => all_but_last_delivered w s'
       end.

End Logs.

(** * Properties of the draft store *)

Section DraftStoreFacts.
Import Slices.

Ltac step_route :=
  unfold exec, eval, _store_draft, _pop_draft, _get_draft, _is_draft,
    _is_new_draft, dict_pop, dict_get, dict_in, bind, ret, raise, call,
    get, put, modify, try_except; simpl.

Lemma exec_store_draft name p b st :
  exec (_store_draft name p b) st
  = mkStore (<[name := p]> (_draft_slices st)) (<[name := b]> (_draft_is_new st)).
Proof. reflexivity. Qed.

Lemma exec_pop_draft name st :
  exec (_pop_draft name) st
  = mkStore (delete name (_draft_slices st)) (delete name (_draft_is_new st)).
Proof. reflexivity. Qed.

Lemma eval_pop_draft name st :
  eval (_pop_draft name) st
  = Ok (default PyNone (_draft_slices st !! name),
        default true (_draft_is_new st !! name)).
Proof. reflexivity. Qed.

Lemma tables_aligned_dom st :
  tables_aligned st ↔ dom (_draft_is_new st) = dom (_draft_slices st).
Proof.
  unfold tables_aligned. split.
  - intros H. apply set_eq. intros k. rewrite !elem_of_dom. apply H.
  - intros H k. rewrite <- !elem_of_dom, H. reflexivity.
Qed.

Lemma tables_aligned_empty : tables_aligned empty_store.
Proof. intros k. simpl. rewrite !lookup_empty. split; by intros [? ?]. Qed.

(** C4. Two takes in a row on one name: the first removes the record, the
    second returns [(None, True)] and leaves the store as it found it. *)
Theorem take_twice_absent (name : string) (st : DraftStore) :
  let st1 := exec (_pop_draft name) st in
  record_of name st1 = None
  ∧ _pop_draft name st1 = (Ok (PyNone, true), st1).
Proof.
  destruct st as [sl fl]. step_route. split.
  - unfold record_of. simpl. by rewrite lookup_delete_eq.
  - rewrite !lookup_delete_eq. simpl. by rewrite !delete_delete_eq.
Qed.

(** C5. [put(n, p, true)] followed by [take(n)] returns exactly
    [(p, true)], from any store. *)
Theorem put_take_roundtrip (n : string) (p : pyobj) (st : DraftStore) :
  eval (_pop_draft n) (exec (_store_draft n p true) st) = Ok (p, true).
Proof.
  rewrite eval_pop_draft, exec_store_draft. simpl.
  by rewrite !lookup_insert_eq.
Qed.

Lemma store_draft_aligned name p b st :
  tables_aligned st → tables_aligned (exec (_store_draft name p b) st).
Proof.
  intros Hal k. rewrite exec_store_draft. simpl.
  destruct (decide (name = k)) as [->|Hne].
  - rewrite !lookup_insert_eq. split; eauto.
  - rewrite !lookup_insert_ne by done. apply Hal.
Qed.

Lemma pop_draft_aligned name st :
  tables_aligned st → tables_aligned (exec (_pop_draft name) st).
Proof.
  intros Hal k. rewrite exec_pop_draft. simpl.
  destruct (decide (name = k)) as [->|Hne].
  - rewrite !lookup_delete_eq. split; by intros [? ?].
  - rewrite !lookup_delete_ne by done. apply Hal.
Qed.

(** C10. The store is two tables, and each of put, take, peek, contains
    and the flag lookup keeps their key sets equal: a name has a flag entry
    exactly when it has a payload entry. *)
Theorem store_ops_keep_tables_aligned (name : string) (p : pyobj) (b : bool)
  (st : DraftStore) :
  tables_aligned st →
  tables_aligned (exec (_store_draft name p b) st)
  ∧ tables_aligned (exec (_pop_draft name) st)
  ∧ tables_aligned (exec (_get_draft name) st)
  ∧ tables_aligned (exec (_is_draft name) st)
  ∧ tables_aligned (exec (_is_new_draft name) st).
Proof.
  intros Hal. split; [by apply store_draft_aligned|].
  split; [by apply pop_draft_aligned|].
  split; [exact Hal|]. split; exact Hal.
Qed.

(** Witness for C10: the store after one put on the empty store. *)
Lemma store_ops_keep_tables_aligned_witness :
  let st := exec (_store_draft "exp1" (PySlice 1) true) empty_store in
  tables_aligned st
  ∧ tables_aligned (exec (_store_draft "exp2" (PySlice 2) false) st)
  ∧ tables_aligned (exec (_pop_draft "exp1") st).
Proof.
  assert (Hst : tables_aligned
                  (exec (_store_draft "exp1" (PySlice 1) true) empty_store))
    by (apply store_draft_aligned, tables_aligned_empty).
  split; [exact Hst|].
  pose proof (store_ops_keep_tables_aligned "exp2" (PySlice 2) false _ Hst) as H2.
  pose proof (store_ops_keep_tables_aligned "exp1" PyNone true _ Hst) as H1.
  split; [exact (proj1 H2) | exact (proj1 (proj2 H1))].
Defined.

(** [_serialize] only reads the store. *)
Lemma exec_serialize fab o dirty st : exec (_serialize fab o dirty) st = st.
Proof.
  unfold _serialize. step_route.
  destruct (slice_to_dict fab o) as [d|e]; simpl; [|done].
  destruct (bool_decide _); simpl;
    repeat match goal with
           | |- context [if ?c then _ else _] => destruct c; simpl
           | |- context [build_graph ?f ?x] => destruct (build_graph f x); simpl
           end; done.
Qed.

(** Restoring a record that was just taken gives back the same store. *)
Lemma store_after_pop name p b st :
  _draft_slices st !! name = Some p →
  _draft_is_new st !! name = Some b →
  exec (_store_draft name p b) (exec (_pop_draft name) st) = st.
Proof.
  intros Hp Hb. destruct st as [sl fl]; simpl in *.
  rewrite exec_store_draft, exec_pop_draft. simpl.
  by rewrite !insert_delete_eq, !insert_id.
Qed.

(** C3. A draft with payload [p] and flag [is_new] whose upstream submit
    raises is put back: after [submit_slice] the store holds the same payload
    under the same flag (it is the store it was), and the route answers 500. *)
Theorem submit_failure_restores_draft (fab : Fablib) (name : string) (ref : N)
  (is_new : bool) (e : exn) (st : DraftStore) :
  _draft_slices st !! name = Some (PySlice ref) →
  _draft_is_new st !! name = Some is_new →
  slice_submit fab (PySlice ref) is_new = Raise e →
  record_of name (exec (submit_slice fab name) st) = Some (PySlice ref, is_new)
  ∧ exec (submit_slice fab name) st = st
  ∧ eval (submit_slice fab name) st = Raise (HTTPException 500 (str e)).
Proof.
  intros Hp Hb Hfail.
  assert (Hrun : submit_slice fab name st
                 = (Raise (HTTPException 500 (str e)), st)).
  { pose proof (store_after_pop name _ _ st Hp Hb) as Hback.
    rewrite exec_store_draft, exec_pop_draft in Hback.
    unfold submit_slice. step_route. rewrite Hp, Hb. simpl.
    destruct is_new; rewrite Hfail; simpl; simpl in Hback; by rewrite Hback. }
  unfold exec, eval. rewrite Hrun. simpl.
  split; [|done]. unfold record_of. by rewrite Hp, Hb.
Qed.

(** Witness for C3: ["exp2"] loaded for editing, submit failing upstream. *)
Lemma submit_failure_restores_draft_witness :
  record_of "exp2" (exec (submit_slice demo_fablib "exp2") demo_store)
    = Some (PySlice 2, false)
  ∧ exec (submit_slice demo_fablib "exp2") demo_store = demo_store
  ∧ eval (submit_slice demo_fablib "exp2") demo_store
    = Raise (HTTPException 500 "orchestrator unavailable").
Proof.
  apply (submit_failure_restores_draft demo_fablib "exp2" 2 false
           (Exception "orchestrator unavailable") demo_store);
    vm_compute; reflexivity.
Defined.

(** The store [refresh_slice] leaves: without the old draft, and with the
    fresh one only if the reload went through. *)
Lemma exec_refresh_slice fab name st :
  exec (refresh_slice fab name) st =
  match get_fablib fab with
  | Raise _ => exec (_pop_draft name) st
  | Ok _ =>
      match fablib_get_slice fab name with
      | Raise _ => exec (_pop_draft name) st
      | Ok o =>
          match on_object o (slice_update fab o) with
          | Raise _ => exec (_pop_draft name) st
          | Ok _ => exec (_store_draft name o false) (exec (_pop_draft name) st)
          end
      end
  end.
Proof.
  unfold refresh_slice, exec, bind, call, try_except. simpl.
  destruct (get_fablib fab) as [[]|e0]; simpl; [|done].
  destruct (fablib_get_slice fab name) as [o|e1]; simpl; [|done].
  destruct (on_object o (slice_update fab o)) as [[]|e2]; simpl; [|done].
  match goal with
  | |- context [_serialize fab o false ?s] =>
      pose proof (exec_serialize fab o false s) as Hser;
      unfold exec in Hser;
      destruct (_serialize fab o false s) as [[resp|e3] st2]
  end; simpl in *; by rewrite Hser.
Qed.

(** C6. After [refresh_slice] on a name, a draft stored under that name is
    flagged [is_new = False]; and one is stored, holding the freshly loaded
    slice, whenever the reload from upstream went through. *)
Theorem refresh_leaves_not_new (fab : Fablib) (name : string) (st : DraftStore) :
  let st' := exec (refresh_slice fab name) st in
  (∀ b, _draft_is_new st' !! name = Some b → b = false)
  ∧ (∀ p b, record_of name st' = Some (p, b) → b = false)
  ∧ (∀ o, get_fablib fab = Ok tt →
          fablib_get_slice fab name = Ok o →
          on_object o (slice_update fab o) = Ok tt →
          record_of name st' = Some (o, false)).
Proof.
  simpl.
  assert (Hflag : ∀ b, _draft_is_new (exec (refresh_slice fab name) st) !! name
                       = Some b → b = false).
  { intros b. rewrite exec_refresh_slice.
    destruct (get_fablib fab) as [[]|e0];
      [destruct (fablib_get_slice fab name) as [o|e1];
       [destruct (on_object o (slice_update fab o)) as [[]|e2]|]|];
      rewrite ?exec_store_draft, ?exec_pop_draft; simpl;
      rewrite ?lookup_insert_eq, ?lookup_delete_eq; congruence. }
  split; [exact Hflag|]. split.
  - intros p b Hrec. apply Hflag. unfold record_of in Hrec.
    destruct (_draft_slices _ !! name); [|discriminate].
    destruct (_draft_is_new _ !! name); [|discriminate]. congruence.
  - intros o Hfab Hget Hupd.
    rewrite exec_refresh_slice, Hfab, Hget, Hupd.
    unfold record_of. rewrite exec_store_draft. simpl.
    by rewrite !lookup_insert_eq.
Qed.

(** Witness for C6: ["exp2"], held as a new draft, is refreshed. *)
Lemma refresh_leaves_not_new_witness :
  record_of "exp2"
    (exec (refresh_slice demo_fablib "exp2")
          (exec (_store_draft "exp2" (PySlice 2) true) empty_store))
  = Some (PySlice 7, false).
Proof.
  apply (refresh_leaves_not_new demo_fablib "exp2"
           (exec (_store_draft "exp2" (PySlice 2) true) empty_store));
    vm_compute; reflexivity.
Defined.

(** When the reload fails the old draft is gone and nothing replaces it:
    the route drops local edits before it asks upstream. *)
Lemma refresh_failure_drops_draft (fab : Fablib) (name : string) (e : exn)
  (st : DraftStore) :
  fablib_get_slice fab name = Raise e →
  record_of name (exec (refresh_slice fab name) st) = None.
Proof.
  intros Hget. rewrite exec_refresh_slice, Hget.
  destruct (get_fablib fab) as [[]|e0];
    unfold record_of; rewrite exec_pop_draft; simpl;
    by rewrite lookup_delete_eq.
Qed.

(** C9. A successful GET of a name that has no draft stores the slice just
    loaded from upstream as a draft flagged [is_new = False]; afterwards the
    store contains the name. *)
Theorem first_read_starts_edit_session (fab : Fablib) (name : string)
  (st st' : DraftStore) (resp : Response) :
  _draft_slices st !! name = None →
  get_slice fab name st = (Ok resp, st') →
  ∃ o, fablib_get_slice fab name = Ok o
       ∧ record_of name st' = Some (o, false)
       ∧ eval (_is_draft name) st' = Ok true.
Proof.
  intros Hno. unfold get_slice, _get_slice_obj, try_except, bind at 1 2 3.
  unfold _get_draft, _is_draft at 1, bind at 1 2 3, get, ret, call, dict_get,
    dict_in. simpl. rewrite Hno. simpl.
  destruct (get_fablib fab) as [[]|e0]; simpl; [|discriminate].
  destruct (fablib_get_slice fab name) as [o|e1]; simpl; [|discriminate].
  rewrite Hno. rewrite bool_decide_eq_false_2 by (by intros [? ?]). simpl.
  unfold bind at 1. simpl.
  match goal with
  | |- context [_serialize fab o false ?s] =>
      pose proof (exec_serialize fab o false s) as Hser;
      unfold exec in Hser;
      destruct (_serialize fab o false s) as [[r|e3] st2]
  end; simpl in *; [|discriminate].
  intros [= _ <-]. exists o. split; [done|]. subst st2.
  unfold record_of, eval, _is_draft, bind, get, ret, dict_in. simpl.
  rewrite !lookup_insert_eq. split; [done|].
  by rewrite bool_decide_eq_true_2.
Qed.

(** Witness for C9: a first GET of ["exp3"] on the empty store. *)
Lemma first_read_starts_edit_session_witness :
  ∃ o, fablib_get_slice demo_fablib "exp3" = Ok o
       ∧ record_of "exp3" (exec (get_slice demo_fablib "exp3") empty_store)
         = Some (o, false)
       ∧ eval (_is_draft "exp3")
              (exec (get_slice demo_fablib "exp3") empty_store) = Ok true.
Proof.
  apply (first_read_starts_edit_session demo_fablib "exp3" empty_store
           (exec (get_slice demo_fablib "exp3") empty_store)
           (SliceView (mkSliceDict "exp2" "StableOK" false EmptyString)
                      EmptyString));
    vm_compute; reflexivity.
Defined.

End DraftStoreFacts.

(** * Properties of the terminal session *)

Section TerminalFacts.
Import Terminal.

(** ** The key loader *)

Ltac nodup_classes :=
  repeat (apply NoDup_cons; split;
          [rewrite ?elem_of_cons, ?elem_of_nil; intuition discriminate|]);
  apply NoDup_nil; exact I.

(** C7. [_load_private_key] tries the decoders in the fixed order Ed25519,
    ECDSA, RSA, each at most once and stopping at the first that succeeds,
    whose handle it returns; when all three fail (an absent or unreadable
    file fails all three) it raises an error carrying the text of the last
    decoder's error. *)
Theorem load_private_key_first_success (w : World) (path : string) (s : Session) :
  let d := from_private_key_file w in
  let r := (_load_private_key w path s).1 in
  let s' := (_load_private_key w path s).2 in
  key_classes = [Ed25519Key; ECDSAKey; RSAKey]
  ∧ ∃ tried : list key_class,
      trace s' = (trace s ++ map (λ c, EvDecode c path) tried)%list
      ∧ tried `prefix_of` key_classes
      ∧ NoDup tried
      ∧ match r with
        | Ok key =>
            ∃ before cls, tried = (before ++ [cls])%list
                          ∧ d cls path = Ok key
                          ∧ Forall (λ c, is_ok (d c path) = false) before
        | Raise e =>
            tried = key_classes
            ∧ Forall (λ c, is_ok (d c path) = false) key_classes
            ∧ ∃ e_last, d RSAKey path = Raise e_last
                        ∧ e = SSHException
                                ("Cannot load key " ++ path ++ ": " ++ str e_last)
        end.
Proof.
  simpl. split; [reflexivity|].
  unfold _load_private_key, key_classes, load_loop, bind, emit, modify, ret,
    raise. simpl.
  destruct (from_private_key_file w Ed25519Key path) as [k1|e1] eqn:H1; simpl.
  { exists [Ed25519Key]. split; [done|]. split; [by eexists|].
    split; [nodup_classes|].
    exists [], Ed25519Key. by repeat split. }
  destruct (from_private_key_file w ECDSAKey path) as [k2|e2] eqn:H2; simpl.
  { exists [Ed25519Key; ECDSAKey]. split; [by rewrite <- app_assoc|].
    split; [by eexists|]. split; [nodup_classes|].
    exists [Ed25519Key], ECDSAKey. repeat split; try done.
    repeat constructor. by rewrite H1. }
  destruct (from_private_key_file w RSAKey path) as [k3|e3] eqn:H3; simpl.
  { exists [Ed25519Key; ECDSAKey; RSAKey]. split; [by rewrite <- !app_assoc|].
    split; [done|]. split; [nodup_classes|].
    exists [Ed25519Key; ECDSAKey], RSAKey. repeat split; try done.
    repeat constructor; [by rewrite H1 | by rewrite H2]. }
  exists [Ed25519Key; ECDSAKey; RSAKey]. split; [by rewrite <- !app_assoc|].
  split; [done|]. split; [nodup_classes|].
  split; [done|]. split.
  - repeat constructor; [by rewrite H1 | by rewrite H2 | by rewrite H3].
  - by exists e3.
Qed.

(** ** Resize messages *)

Lemma resizes_app t1 t2 : resizes (t1 ++ t2) = (resizes t1 ++ resizes t2)%list.
Proof.
  induction t1 as [|e t1 IH]; [done|].
  destruct e; simpl; by rewrite ?IH.
Qed.

Lemma terminal_size_from_app cur t1 t2 :
  terminal_size_from cur (t1 ++ t2)
  = terminal_size_from (terminal_size_from cur t1) t2.
Proof.
  revert cur. induction t1 as [|e t1 IH]; intros cur; [done|].
  destruct e as [| | | | | | | | | |c r []]; simpl; apply IH.
Qed.

(** What one turn of the receive loop does with a message that parses to an
    object whose [type] is ["resize"]. *)
Lemma receive_resize w text items shell_call s :
  json_loads w text = Ok (JObj items) →
  items_lookup "type" items = Some (JStr "resize") →
  receive_iteration w (Ok text) shell_call s
  = (Ok (is_ok shell_call),
     mkSession (trace s ++ [EvResize (default (JInt 80) (items_lookup "cols" items))
                                     (default (JInt 24) (items_lookup "rows" items))
                                     (is_ok shell_call)])
               (sends s) (v_bastion s) (v_target s) (v_shell s) (task_alive s)).
Proof.
  intros Hparse Hty.
  unfold receive_iteration, dispatch, try_except, bind, call, emit, modify,
    ret, py_get. simpl.
  rewrite Hparse. simpl. rewrite Hty. simpl.
  by destruct shell_call as [[]|e].
Qed.

(** C8. A received message of type ["resize"] makes the relay call
    [shell.resize_pty] exactly once, with the message's [cols] and [rows]
    and 80 and 24 in place of an absent one; when the call goes through the
    terminal has that size, and the same message again calls it once more
    and leaves the size as it is. *)
Theorem resize_once_with_defaults (w : World) (text : string)
  (items : list (string * json)) (shell_call : res unit) (s : Session) :
  json_loads w text = Ok (JObj items) →
  items_lookup "type" items = Some (JStr "resize") →
  let cols := default (JInt 80) (items_lookup "cols" items) in
  let rows := default (JInt 24) (items_lookup "rows" items) in
  let s1 := (receive_iteration w (Ok text) shell_call s).2 in
  let s2 := (receive_iteration w (Ok text) (Ok tt) s1).2 in
  trace s1 = (trace s ++ [EvResize cols rows (is_ok shell_call)])%list
  ∧ resizes (trace s1) = (resizes (trace s) ++ [(cols, rows)])%list
  ∧ (shell_call = Ok tt →
       terminal_size (trace s1) = (cols, rows)
       ∧ resizes (trace s2) = (resizes (trace s) ++ [(cols, rows); (cols, rows)])%list
       ∧ terminal_size (trace s2) = terminal_size (trace s1)).
Proof.
  intros Hparse Hty. simpl.
  rewrite (receive_resize w text items shell_call s Hparse Hty). simpl.
  rewrite (receive_resize w text items (Ok tt) _ Hparse Hty). simpl.
  split; [done|]. split; [by rewrite resizes_app|].
  intros ->. simpl. unfold terminal_size.
  rewrite !terminal_size_from_app, !resizes_app. simpl.
  split; [done|]. split; [by rewrite <- app_assoc|done].
Qed.

(** Witness for C8: a resize to 120 columns that names no rows. *)
Lemma resize_once_with_defaults_witness :
  let s1 := (receive_iteration stubborn_close_world (Ok "resize 120 cols")
               (Ok tt) init_session).2 in
  trace s1 = [EvResize (JInt 120) (JInt 24) true]
  ∧ resizes (trace s1) = [(JInt 120, JInt 24)]
  ∧ terminal_size (trace s1) = (JInt 120, JInt 24).
Proof.
  pose proof (resize_once_with_defaults stubborn_close_world "resize 120 cols"
                [("type", JStr "resize"); ("cols", JInt 120)] (Ok tt)
                init_session eq_refl eq_refl) as (H1 & H2 & H3).
  split; [exact H1|]. split; [exact H2|]. exact (proj1 (H3 eq_refl)).
Defined.

(** ** Frame lemmas: what a session step can and cannot do *)

Lemma extends_refl ok s : extends ok s s.
Proof.
  split; [|by repeat split]. exists []. by rewrite app_nil_r.
Qed.

Lemma extends_trans ok s1 s2 s3 :
  extends ok s1 s2 → extends ok s2 s3 → extends ok s1 s3.
Proof.
  intros [(e1 & Ht1 & Ho1) (Hb1 & Hg1 & Hs1)] [(e2 & Ht2 & Ho2) (Hb2 & Hg2 & Hs2)].
  split; [|by auto].
  exists (e1 ++ e2)%list. rewrite Ht2, Ht1, app_assoc. split; [done|].
  rewrite forallb_app, Ho1, Ho2. done.
Qed.

Lemma extends_closes s s' :
  extends neutral s s' → closes (trace s') = closes (trace s).
Proof.
  intros [(evs & -> & Hok) _].
  assert (Hnil : closes evs = []).
  { induction evs as [|e evs IH]; [done|]. simpl in Hok.
    apply andb_prop in Hok as [He Hevs]. destruct e; simpl; auto; discriminate. }
  assert (Happ : ∀ t, closes (t ++ evs) = closes t).
  { intros t. induction t as [|e t IH]; [done|]. destruct e; simpl; by rewrite ?IH. }
  apply Happ.
Qed.

Lemma extends_no_task s s' :
  extends not_task s s' → EvCreateTask ∈ trace s' → EvCreateTask ∈ trace s.
Proof.
  intros [(evs & -> & Hok) _]. rewrite elem_of_app. intros [H|H]; [done|].
  exfalso. induction evs as [|e evs IH]; [by apply elem_of_nil in H|].
  simpl in Hok. apply andb_prop in Hok as [He Hevs].
  apply elem_of_cons in H as [<-|H]; [discriminate|auto].
Qed.

Lemma extends_weaken s s' : extends neutral s s' → extends not_task s s'.
Proof.
  intros [(evs & Ht & Hok) Hv]. split; [|done]. exists evs. split; [done|].
  clear Ht. induction evs as [|e evs IH]; [done|]. simpl in *.
  apply andb_prop in Hok as [He Hevs]. rewrite IH by done.
  by destruct e.
Qed.

Section Quiet.
Context {ok : event → bool}.

Lemma quiet_ret {A} (a : A) : quiet ok (ret a).
Proof. intros s. apply extends_refl. Qed.

Lemma quiet_raise {A} e : quiet ok (raise (A:=A) e).
Proof. intros s. apply extends_refl. Qed.

Lemma quiet_call {A} (r : res A) : quiet ok (call r).
Proof. intros s. apply extends_refl. Qed.

Lemma quiet_get : quiet ok (get (S:=Session)).
Proof. intros s. apply extends_refl. Qed.

Lemma quiet_bind {A B} (m : Sess A) (k : A → Sess B) :
  quiet ok m → (∀ a, quiet ok (k a)) → quiet ok (bind m k).
Proof.
  intros Hm Hk s. unfold bind. specialize (Hm s).
  destruct (m s) as [[a|e] s1]; simpl in *; [|done].
  eapply extends_trans; [exact Hm | apply Hk].
Qed.

Lemma quiet_try_except {A} (m : Sess A) (h : exn → Sess A) :
  quiet ok m → (∀ e, quiet ok (h e)) → quiet ok (try_except m h).
Proof.
  intros Hm Hh s. unfold try_except. specialize (Hm s).
  destruct (m s) as [[a|e] s1]; simpl in *; [done|].
  eapply extends_trans; [exact Hm | apply Hh].
Qed.

Lemma quiet_emit e : ok e = true → quiet ok (emit e).
Proof.
  intros He s. split; [|by repeat split]. exists [e]. simpl. by rewrite He.
Qed.

Lemma quiet_set_bastion : quiet ok (set_bastion true).
Proof. intros s. split; [|by repeat split]. exists []. simpl. by rewrite app_nil_r. Qed.

Lemma quiet_set_target_shell : quiet ok (set_target_shell true true).
Proof. intros s. split; [|by repeat split]. exists []. simpl. by rewrite app_nil_r. Qed.

Lemma quiet_set_task b : quiet ok (set_task b).
Proof. intros s. split; [|by repeat split]. exists []. simpl. by rewrite app_nil_r. Qed.

Lemma quiet_count_send : quiet ok count_send.
Proof. intros s. split; [|by repeat split]. exists []. simpl. by rewrite app_nil_r. Qed.

Lemma quiet_send_text w k text :
  ok (EvSend k text) = true → quiet ok (send_text w k text).
Proof.
  intros He. unfold send_text.
  apply quiet_bind; [apply quiet_count_send|]. intros n.
  apply quiet_bind; [apply quiet_call|]. intros _. by apply quiet_emit.
Qed.

Lemma quiet_websocket_close w : ok EvWsClose = true → quiet ok (websocket_close w).
Proof.
  intros He. unfold websocket_close.
  apply quiet_bind; [by apply quiet_emit | intros _; apply quiet_call].
Qed.

Lemma quiet_load_loop w clss path last_err :
  (∀ c, ok (EvDecode c path) = true) → quiet ok (load_loop w clss path last_err).
Proof.
  intros He. revert last_err. induction clss as [|c clss IH]; intros last_err; simpl.
  - apply quiet_raise.
  - apply quiet_bind; [by apply quiet_emit|]. intros _.
    destruct (from_private_key_file w c path); [apply quiet_ret | apply IH].
Qed.

End Quiet.

Ltac quiet_step :=
  cbv zeta;
  first
    [ apply quiet_ret | apply quiet_raise | apply quiet_call | apply quiet_get
    | apply quiet_set_bastion | apply quiet_set_target_shell
    | apply quiet_set_task | apply quiet_count_send
    | apply quiet_send_text; reflexivity
    | apply quiet_websocket_close; reflexivity
    | apply quiet_emit; reflexivity
    | apply quiet_load_loop; intros; reflexivity
    | apply quiet_bind; [|intros ?]
    | apply quiet_try_except; [|intros ?]
    | match goal with |- quiet _ (if ?c then _ else _) => destruct c end ].

Ltac quiet_tac := repeat quiet_step.

(** The set-up block neither closes a resource nor starts the relay. *)
Lemma quiet_setup_body w sn nn : quiet neutral (setup_body w sn nn).
Proof.
  unfold setup_body, _get_ssh_config, _connect_bastion, _open_tunnel,
    _connect_target, _load_private_key.
  quiet_tac.
Qed.

(** Its [except] clause may close the bastion, and does not start the
    relay. *)
Lemma quiet_setup_failed w e : quiet not_task (setup_failed w e).
Proof.
  unfold setup_failed, try_pass, close_var. quiet_tac.
Qed.

Lemma quiet_setup w sn nn : quiet not_task (setup w sn nn).
Proof.
  unfold setup. intros s. unfold try_except.
  pose proof (quiet_setup_body w sn nn s) as Hbody.
  destruct (setup_body w sn nn s) as [[f|e] s1]; simpl in *.
  - by apply extends_weaken.
  - eapply extends_trans; [by apply extends_weaken | apply quiet_setup_failed].
Qed.

Lemma quiet_read_ssh_iteration w sr : quiet neutral (read_ssh_iteration w sr).
Proof. unfold read_ssh_iteration. quiet_tac. Qed.

Lemma quiet_receive_iteration w msg shell_call :
  quiet neutral (receive_iteration w msg shell_call).
Proof. unfold receive_iteration, dispatch. quiet_tac. Qed.

Lemma quiet_relay_loop w sch : quiet neutral (relay_loop w sch).
Proof.
  induction sch as [|[sr|msg shell_call] sch IH]; simpl.
  - apply quiet_ret.
  - apply quiet_bind; [apply quiet_read_ssh_iteration | by intros _].
  - apply quiet_bind; [apply quiet_receive_iteration|].
    intros []; [done | apply quiet_ret].
Qed.

(** Neither duty lets an exception out of its loop. *)
Lemma read_ssh_iteration_ok w sr s : (read_ssh_iteration w sr s).1 = Ok tt.
Proof.
  unfold read_ssh_iteration, try_except, send_text, count_send, emit, modify,
    set_task, bind, call, get, put, ret. simpl.
  destruct (task_alive s); [|done].
  destruct (non_empty (_read_shell sr)); simpl; [|done].
  by destruct (ws_send_text w (sends s)) as [[]|e].
Qed.

Lemma receive_iteration_ok w msg shell_call s :
  ∃ again, (receive_iteration w msg shell_call s).1 = Ok again.
Proof.
  unfold receive_iteration, try_except.
  match goal with |- context [bind ?m ?k s] => destruct (bind m k s) as [[b|e] s1] end;
    simpl; eauto.
Qed.

Lemma relay_loop_ok w sch s : (relay_loop w sch s).1 = Ok tt.
Proof.
  revert s. induction sch as [|[sr|msg shell_call] sch IH]; intros s; simpl.
  - done.
  - unfold bind. pose proof (read_ssh_iteration_ok w sr s) as Hr.
    destruct (read_ssh_iteration w sr s) as [[[]|e] s1]; simpl in *;
      [apply IH | discriminate].
  - unfold bind. destruct (receive_iteration_ok w msg shell_call s) as [b Hb].
    destruct (receive_iteration w msg shell_call s) as [[again|e] s1];
      simpl in *; [|discriminate].
    destruct again; [apply IH | done].
Qed.

(** ** Teardown *)

(** With the three locals bound, the [finally] clause calls the three
    [close()]s in its order whatever each of them does, and lets no
    exception out. *)
Lemma teardown_spec w s :
  v_shell s = true → v_target s = true → v_bastion s = true →
  (teardown w s).1 = Ok tt
  ∧ trace (teardown w s).2
    = (trace s ++ [EvClose Shell; EvClose Target; EvClose Bastion])%list.
Proof.
  intros Hs Ht Hb.
  unfold teardown, try_pass, try_except, close_var, bind, emit, modify, call,
    get, ret. simpl. rewrite Hs. simpl.
  destruct (close w Shell) as [[]|e1]; simpl; rewrite Ht; simpl;
    destruct (close w Target) as [[]|e2]; simpl; rewrite Hb; simpl;
    destruct (close w Bastion) as [[]|e3]; simpl;
    by rewrite <- !app_assoc.
Qed.

Lemma bind_ok_inv {S A B} (m : M S A) (k : A → M S B) s b s' :
  bind m k s = (Ok b, s') → ∃ a s1, m s = (Ok a, s1) ∧ k a s1 = (Ok b, s').
Proof.
  unfold bind. destruct (m s) as [[a|e] s1]; [eauto | discriminate].
Qed.

Ltac peel H :=
  let a := fresh "a" in
  let s1 := fresh "s" in
  let Hm := fresh "Hm" in
  apply bind_ok_inv in H as (a & s1 & Hm & H); cbv beta in H.

Ltac peel_drop H :=
  let a := fresh "a" in
  let s1 := fresh "s" in
  let Hm := fresh "Hm" in
  apply bind_ok_inv in H as (a & s1 & Hm & H); cbv beta in H; clear Hm.

(** From a point in the set-up onwards nothing rebinds a local to [None]. *)
Ltac rest_is_quiet H Hext :=
  match type of H with
  | ?m ?s = (_, ?s') =>
      assert (Hext : extends neutral s s')
        by (let Hq := fresh in
            assert (Hq : quiet neutral m)
              by (unfold _get_ssh_config, _connect_bastion, _open_tunnel,
                    _connect_target, _load_private_key; quiet_tac);
            specialize (Hq s); by rewrite H in Hq)
  end.

(** When the set-up falls through to the relay, the three locals are
    bound. *)
Lemma setup_body_proceed w sn nn s s' :
  setup_body w sn nn s = (Ok Proceed, s') →
  v_bastion s' = true ∧ v_target s' = true ∧ v_shell s' = true.
Proof.
  unfold setup_body. intros H.
  do 6 peel_drop H.
  destruct (negb _).
  { do 2 peel_drop H. discriminate H. }
  do 5 peel_drop H. peel H.
  match goal with
  | Hm : set_bastion true _ = (Ok _, ?s1) |- _ =>
      assert (Hb : v_bastion s1 = true) by (by injection Hm as _ <-); clear Hm
  end.
  rest_is_quiet H Hext1.
  do 6 peel_drop H. peel H.
  match goal with
  | Hm : set_target_shell true true _ = (Ok _, ?s1) |- _ =>
      assert (Hts : v_target s1 = true ∧ v_shell s1 = true)
        by (by injection Hm as _ <-); clear Hm
  end.
  rest_is_quiet H Hext2.
  destruct Hext1 as (_ & Hb1 & _), Hext2 as (_ & _ & Ht2 & Hs2), Hts.
  auto.
Qed.

Lemma setup_failed_returns w e s s' f :
  setup_failed w e s = (Ok f, s') → f = Returned.
Proof.
  unfold setup_failed. intros H. do 4 peel_drop H. by injection H as <- _.
Qed.

Lemma closes_app t1 t2 : closes (t1 ++ t2) = (closes t1 ++ closes t2)%list.
Proof.
  induction t1 as [|e t1 IH]; [done|]. destruct e; simpl; by rewrite ?IH.
Qed.

Lemma closes_neutral evs : forallb neutral evs = true → closes evs = [].
Proof.
  induction evs as [|e evs IH]; [done|]. simpl. intros H.
  apply andb_prop in H as [He Hevs]. destruct e; simpl; auto; discriminate.
Qed.

(** The relay phase, entered with the three locals bound: the polling task
    is started, the loop runs without closing anything, the task is
    cancelled, and the [finally] clause closes shell, target, bastion. *)
Lemma relay_spec w s :
  v_shell s = true → v_target s = true → v_bastion s = true →
  ∃ mid s',
    relay w s = (Ok tt, s')
    ∧ forallb neutral mid = true
    ∧ trace s'
      = (trace s ++ [EvCreateTask] ++ mid
           ++ [EvCancelTask; EvClose Shell; EvClose Target; EvClose Bastion])%list.
Proof.
  intros Hs Ht Hb. unfold relay, try_finally.
  unfold bind at 1 2, emit at 1, set_task at 1, modify.
  cbn [trace sends v_bastion v_target v_shell task_alive fst snd].
  set (s2 := mkSession (trace s ++ [EvCreateTask]) (sends s) (v_bastion s)
                       (v_target s) (v_shell s) true).
  unfold bind at 1.
  pose proof (relay_loop_ok w (schedule w) s2) as Hok.
  pose proof (quiet_relay_loop w (schedule w) s2) as Hext.
  destruct (relay_loop w (schedule w) s2) as [[[]|e] s3]; simpl in Hok, Hext;
    [|discriminate].
  destruct Hext as ((mid & Htr & Hmid) & Hb3 & Ht3 & Hs3).
  unfold bind, emit, set_task, modify.
  match goal with
  | |- context [teardown w ?s4] => set (s4' := s4)
  end.
  destruct (teardown_spec w s4') as [Hr Htrace]; [by auto..|].
  destruct (teardown w s4') as [[[]|e] s5]; simpl in Hr, Htrace;
    [|discriminate].
  exists mid, s5. split; [reflexivity|]. split; [done|].
  rewrite Htrace, Htr. subst s2. simpl. by rewrite <- !app_assoc.
Qed.

(** C2. Once the relay has started, however the session then ends (client
    gone, a message that does not decode or dispatch, a failing shell call),
    the handler returns normally after calling [close()] on the shell, then
    the target, then the bastion, each call made whatever the earlier ones
    did; these are the only [close()] calls of the session and the last
    things it does. *)
Theorem teardown_shell_target_bastion (w : World) (slice_name node_name : string) :
  let r := (run w slice_name node_name).1 in
  let s := (run w slice_name node_name).2 in
  EvCreateTask ∈ trace s →
  r = Ok tt
  ∧ closes (trace s) = [Shell; Target; Bastion]
  ∧ ∃ before,
      trace s = (before ++ [EvCancelTask; EvClose Shell; EvClose Target;
                            EvClose Bastion])%list.
Proof.
  simpl. destruct (run w slice_name node_name) as [r s] eqn:Hrun. simpl.
  unfold run, terminal_ws in Hrun. unfold bind at 1, call in Hrun.
  destruct (ws_accept w) as [[]|e0]; simpl in Hrun;
    [|injection Hrun as <- <-; by intros ?%elem_of_nil].
  unfold bind at 1, emit, modify in Hrun. simpl in Hrun.
  set (s0 := mkSession [EvAccept] 0 false false false false) in Hrun.
  unfold bind in Hrun.
  pose proof (quiet_setup w slice_name node_name s0) as Hq.
  assert (Hno : ∀ s1, extends not_task s0 s1 → EvCreateTask ∈ trace s1 → False).
  { intros s1 Hext Hin. apply (extends_no_task _ _ Hext) in Hin. simpl in Hin.
    apply list_elem_of_singleton in Hin. discriminate. }
  destruct (setup w slice_name node_name s0) as [[[|]|e] s1] eqn:Hsetup;
    simpl in Hq.
  - injection Hrun as <- <-. intros Hin. destruct (Hno _ Hq Hin).
  - intros _. unfold setup, try_except in Hsetup.
    pose proof (quiet_setup_body w slice_name node_name s0) as Hqb.
    destruct (setup_body w slice_name node_name s0) as [[f|e] s1'] eqn:Hbody;
      simpl in Hqb.
    + injection Hsetup as -> ->.
      destruct (setup_body_proceed _ _ _ _ _ Hbody) as (Hb & Ht & Hs).
      destruct (relay_spec w s1 Hs Ht Hb) as (mid & s2 & Hrelay & Hmid & Htr).
      rewrite Hrelay in Hrun. injection Hrun as <- <-.
      split; [done|]. rewrite Htr. split.
      * rewrite !closes_app, (extends_closes _ _ Hqb), (closes_neutral _ Hmid).
        done.
      * exists (trace s1 ++ [EvCreateTask] ++ mid)%list.
        by rewrite <- !app_assoc.
    + apply setup_failed_returns in Hsetup. discriminate.
  - injection Hrun as <- <-. intros Hin. destruct (Hno _ Hq Hin).
Qed.

(** Witness for C2: a session in which closing the shell and closing the
    target both raise; the bastion is closed all the same. *)
Lemma teardown_shell_target_bastion_witness :
  (run stubborn_close_world "exp1" "node1").1 = Ok tt
  ∧ closes (trace (run stubborn_close_world "exp1" "node1").2)
    = [Shell; Target; Bastion].
Proof.
  destruct (teardown_shell_target_bastion stubborn_close_world "exp1" "node1")
    as (H1 & H2 & _).
  - apply list_elem_of_In. vm_compute.
    repeat (first [left; reflexivity | right]).
  - exact (conj H1 H2).
Defined.

(** ** Set-up failures *)

(** The [except] clause of the set-up closes at most the bastion. *)
Lemma setup_failed_closes w e s :
  closes (trace (setup_failed w e s).2) = closes (trace s)
  ∨ closes (trace (setup_failed w e s).2) = (closes (trace s) ++ [Bastion])%list.
Proof.
  unfold setup_failed, send_text, websocket_close, try_pass, try_except,
    close_var, count_send, emit, modify, bind, call, get, put, ret.
  cbn [trace sends v_bastion v_target v_shell task_alive fst snd].
  destruct (ws_send_text w (sends s)) as [[]|e1];
    cbn [trace sends v_bastion v_target v_shell task_alive fst snd];
    [|by left].
  destruct (ws_close w) as [[]|e2];
    cbn [trace sends v_bastion v_target v_shell task_alive fst snd];
    [|left; by rewrite !closes_app, !app_nil_r].
  destruct (v_bastion s);
    cbn [trace sends v_bastion v_target v_shell task_alive fst snd];
    [|left; by rewrite !closes_app, !app_nil_r].
  right. destruct (close w Bastion) as [[]|e3];
    cbn [trace sends v_bastion v_target v_shell task_alive fst snd];
    by rewrite !closes_app, !app_nil_r.
Qed.

(** A session that never reaches the relay calls [close()] on nothing but,
    at most, the bastion: whatever else the completed stages opened is not
    closed by the handler. *)
Lemma aborted_session_closes_at_most_bastion (w : World)
  (slice_name node_name : string) :
  let s := (run w slice_name node_name).2 in
  EvCreateTask ∉ trace s →
  closes (trace s) = [] ∨ closes (trace s) = [Bastion].
Proof.
  simpl. destruct (run w slice_name node_name) as [r s] eqn:Hrun. simpl.
  unfold run, terminal_ws in Hrun. unfold bind at 1, call in Hrun.
  destruct (ws_accept w) as [[]|e0]; simpl in Hrun;
    [|injection Hrun as <- <-; by left].
  unfold bind at 1, emit, modify in Hrun. simpl in Hrun.
  set (s0 := mkSession [EvAccept] 0 false false false false) in Hrun.
  unfold bind, setup, try_except in Hrun.
  pose proof (quiet_setup_body w slice_name node_name s0) as Hqb.
  destruct (setup_body w slice_name node_name s0) as [[[|]|e] s1] eqn:Hbody;
    simpl in Hqb.
  - injection Hrun as <- <-. intros _. left. by rewrite (extends_closes _ _ Hqb).
  - destruct (setup_body_proceed _ _ _ _ _ Hbody) as (Hb & Ht & Hs).
    destruct (relay_spec w s1 Hs Ht Hb) as (mid & s2 & Hrelay & Hmid & Htr).
    rewrite Hrelay in Hrun. injection Hrun as <- <-.
    intros Hno. exfalso. apply Hno. rewrite Htr, !elem_of_app.
    right. left. apply list_elem_of_here.
  - intros _. pose proof (setup_failed_closes w e s1) as Hc.
    rewrite (extends_closes _ _ Hqb) in Hc. simpl in Hc.
    destruct (setup_failed w e s1) as [[f|e'] s2] eqn:Hf; simpl in Hc.
    + apply setup_failed_returns in Hf as Hret. subst f.
      by injection Hrun as <- <-.
    + by injection Hrun as <- <-.
Qed.

(** ** Aborted sessions, seen through the view *)

Lemma view_emit e s : view (emit e s).2 = see e (view s).
Proof. unfold view, view_of_trace. simpl. by rewrite fold_left_app. Qed.

Lemma see_invisible e v : invisible e = true → see e v = v.
Proof. destruct e as [|[]| | | | | | | | |]; simpl; congruence. Qed.

Lemma fold_see_bind_bastion t v :
  fold_left (λ v e, see e v) t (bind_bastion v)
  = bind_bastion (fold_left (λ v e, see e v) t v).
Proof.
  revert v. induction t as [|e t IH]; intros v; [done|]. simpl.
  rewrite <- IH. f_equal. by destruct e as [|[]| | | | | | | | |].
Qed.

Lemma view_trace_fields t v :
  let v' := fold_left (λ v e, see e v) t v in
  vw_opens v' = (vw_opens v ++ opens t)%list
  ∧ vw_closes v' = (vw_closes v ++ closes t)%list
  ∧ vw_bastion v' = vw_bastion v.
Proof.
  revert v. induction t as [|e t IH]; intros v; simpl.
  - by rewrite !app_nil_r.
  - destruct (IH (see e v)) as (Ho & Hc & Hb). rewrite Ho, Hc, Hb.
    destruct e as [|[]| | | | | | | | |]; simpl; by rewrite <- ?app_assoc.
Qed.

Lemma view_opens s : vw_opens (view s) = opens (trace s).
Proof. apply (view_trace_fields (trace s) (mkView [] [] [] false (v_bastion s))). Qed.

Lemma view_closes s : vw_closes (view s) = closes (trace s).
Proof. apply (view_trace_fields (trace s) (mkView [] [] [] false (v_bastion s))). Qed.

Lemma view_bastion s : vw_bastion (view s) = v_bastion s.
Proof. apply (view_trace_fields (trace s) (mkView [] [] [] false (v_bastion s))). Qed.

Lemma silent_ret {A} (a : A) : silent (ret a).
Proof. done. Qed.

Lemma silent_raise {A} e : silent (raise (A:=A) e).
Proof. done. Qed.

Lemma silent_call {A} (r : res A) : silent (call r).
Proof. done. Qed.

Lemma silent_bind {A B} (m : Sess A) (k : A → Sess B) :
  silent m → (∀ a, silent (k a)) → silent (bind m k).
Proof.
  intros Hm Hk s. unfold bind. specialize (Hm s).
  destruct (m s) as [[a|e] s1]; simpl in *; [|done].
  by rewrite Hk.
Qed.

Lemma silent_try_except {A} (m : Sess A) (h : exn → Sess A) :
  silent m → (∀ e, silent (h e)) → silent (try_except m h).
Proof.
  intros Hm Hh s. unfold try_except. specialize (Hm s).
  destruct (m s) as [[a|e] s1]; simpl in *; [done|].
  by rewrite Hh.
Qed.

Lemma silent_emit e : invisible e = true → silent (emit e).
Proof. intros He s. by rewrite view_emit, see_invisible. Qed.

Lemma silent_count_send : silent count_send.
Proof. done. Qed.

Lemma silent_set_target_shell t sh : silent (set_target_shell t sh).
Proof. done. Qed.

Lemma silent_send_text w k text :
  invisible (EvSend k text) = true → silent (send_text w k text).
Proof.
  intros He. unfold send_text.
  apply silent_bind; [apply silent_count_send|]. intros n.
  apply silent_bind; [apply silent_call|]. intros _. by apply silent_emit.
Qed.

Lemma silent_load_loop w clss path last_err : silent (load_loop w clss path last_err).
Proof.
  revert last_err. induction clss as [|c clss IH]; intros last_err; simpl.
  - apply silent_raise.
  - apply silent_bind; [by apply silent_emit|]. intros _.
    destruct (from_private_key_file w c path); [apply silent_ret | apply IH].
Qed.

Lemma acts_emit e : acts (emit e) (see e).
Proof. intros s. split; [done | apply view_emit]. Qed.

Lemma acts_set_bastion : acts (set_bastion true) bind_bastion.
Proof.
  intros s. split; [done|]. unfold view, view_of_trace. simpl.
  by rewrite <- fold_see_bind_bastion.
Qed.

Lemma hoare_ret {A} (P : View → Prop) (a : A) Qn Qe :
  (∀ v, P v → Qn a v) → hoare P (ret a) Qn Qe.
Proof. intros H s HP. simpl. by apply H. Qed.

Lemma hoare_bind_silent {A B} (P : View → Prop) (m : Sess A) (k : A → Sess B)
  Qn Qe :
  silent m → (∀ v, P v → Qe v) → (∀ a, hoare P (k a) Qn Qe) →
  hoare P (bind m k) Qn Qe.
Proof.
  intros Hm HPe Hk s HP. unfold bind. specialize (Hm s).
  destruct (m s) as [[a|e] s1]; simpl in *.
  - apply Hk. by rewrite Hm.
  - rewrite Hm. by apply HPe.
Qed.

Lemma hoare_bind_acts {B} c (m : Sess unit) f (k : unit → Sess B) Qn Qe :
  acts m f → hoare (eq (f c)) (k tt) Qn Qe → hoare (eq c) (bind m k) Qn Qe.
Proof.
  intros Hm Hk s HP. unfold bind. destruct (Hm s) as [Hr Hv].
  destruct (m s) as [[[]|e] s1]; simpl in *; [|discriminate].
  apply Hk. by rewrite Hv, HP.
Qed.

Lemma hoare_assoc {A B C} P (m : Sess A) (k1 : A → Sess B) (k2 : B → Sess C)
  Qn Qe :
  hoare P (bind m (λ a, bind (k1 a) k2)) Qn Qe →
  hoare P (bind (bind m k1) k2) Qn Qe.
Proof.
  intros H s HP. specialize (H s HP). unfold bind in *.
  by destruct (m s) as [[a|e] s1].
Qed.

Ltac silent_step :=
  cbv zeta;
  first
    [ apply silent_ret | apply silent_raise | apply silent_call
    | apply silent_count_send | apply silent_set_target_shell
    | apply silent_send_text; reflexivity
    | apply silent_emit; reflexivity
    | apply silent_load_loop
    | apply silent_bind; [|intros ?]
    | apply silent_try_except; [|intros ?] ].

Ltac silent_tac := repeat silent_step.

Section ReliableTransport.
Variable w : World.
Hypothesis Hrel : reliable_transport w.

Lemma acts_send_error text :
  acts (send_text w ErrorLine text) (see (EvSend ErrorLine text)).
Proof.
  destruct Hrel as (_ & Hsend & _). intros s.
  unfold send_text, count_send, bind, call, get, put, ret. simpl.
  rewrite Hsend. simpl. split; [done|]. apply view_emit.
Qed.

Lemma acts_websocket_close : acts (websocket_close w) (see EvWsClose).
Proof.
  destruct Hrel as (_ & _ & Hclose). intros s.
  unfold websocket_close, bind, call. simpl. rewrite Hclose. simpl.
  split; [done|]. apply view_emit.
Qed.

Ltac failing_view_tac :=
  intros ? <-; unfold failing_view; simpl;
  split; [done|]; split; [done|]; split; [done|];
  first [ by left
        | right; split; [by eexists|]; split; [apply list_elem_of_here | done] ].

Ltac hoare_step :=
  cbv zeta;
  first
    [ apply hoare_bind_silent; [solve [silent_tac] | failing_view_tac | intros ?]
    | eapply hoare_bind_acts;
      [first [ apply acts_send_error | apply acts_websocket_close
             | apply acts_emit | apply acts_set_bastion ]|];
      cbn [see bind_bastion vw_notices vw_opens vw_closes vw_started
             vw_bastion app]
    | apply hoare_assoc
    | match goal with
      | |- hoare _ (match ?r with Ok _ => _ | Raise _ => _ end) _ _ => destruct r
      | |- hoare _ (if ?c then _ else _) _ _ => destruct c
      end ].

(** The set-up block, from the state the handler starts it in: if it
    returns by itself it has told the client, and if it raises it has not
    and holds the bastion exactly when it opened it. *)
Lemma setup_body_hoare sn nn :
  hoare (eq (mkView [] [] [] false false)) (setup_body w sn nn)
        (λ f v, match f with Returned => aborted_view v | Proceed => True end)
        failing_view.
Proof.
  unfold setup_body, _get_ssh_config, _connect_bastion, _open_tunnel,
    _connect_target, _load_private_key.
  repeat hoare_step.
  - apply hoare_ret. intros ? <-. unfold aborted_view. simpl.
    split; [done|]. split; [done|]. by left.
  - apply hoare_ret. by intros ? <-.
Qed.

(** What the [except] clause does when the client is still there. *)
Lemma setup_failed_run e s :
  ∃ text s',
    setup_failed w e s = (Ok Returned, s')
    ∧ v_bastion s' = v_bastion s
    ∧ trace s'
      = (trace s ++ [EvSend ErrorLine text; EvWsClose]
           ++ (if v_bastion s then [EvClose Bastion] else []))%list.
Proof.
  destruct Hrel as (_ & Hsend & Hclose).
  unfold setup_failed, send_text, websocket_close, try_pass, try_except,
    close_var, count_send, emit, modify, bind, call, get, put, ret.
  cbn [trace sends v_bastion v_target v_shell task_alive fst snd].
  rewrite Hsend. cbn [trace sends v_bastion v_target v_shell task_alive fst snd].
  rewrite Hclose. cbn [trace sends v_bastion v_target v_shell task_alive fst snd].
  destruct (v_bastion s) eqn:Hb;
    cbn [trace sends v_bastion v_target v_shell task_alive fst snd].
  - destruct (close w Bastion) as [[]|e3];
      cbn [trace sends v_bastion v_target v_shell task_alive fst snd];
      eexists _, _; (split; [reflexivity|]); (split; [done|]);
      by rewrite <- !app_assoc.
  - eexists _, _. split; [reflexivity|]. split; [done|].
    by rewrite <- !app_assoc.
Qed.

(** The [except] clause, entered from a state a stage may raise in: one
    error line, the transport closed, and the bastion closed if it was
    opened; the handler then returns. *)
Lemma setup_failed_aborts e s :
  failing_view (view s) →
  (setup_failed w e s).1 = Ok Returned
  ∧ aborted_view (view (setup_failed w e s).2).
Proof.
  intros (Hn & Hc & Hst & Hopens).
  destruct (setup_failed_run e s) as (text & s' & -> & Hb' & Htr).
  simpl. split; [done|].
  assert (Hview : view s'
                  = fold_left (λ v ev, see ev v)
                      ([EvSend ErrorLine text; EvWsClose]
                         ++ (if v_bastion s then [EvClose Bastion] else []))
                      (view s)).
  { unfold view, view_of_trace. by rewrite Htr, Hb', fold_left_app. }
  rewrite Hview, <- view_bastion. unfold aborted_view.
  destruct Hopens as [[Ho Hb] | (Hpre & Hin & Hb)]; rewrite Hb; simpl;
    rewrite Hn, Hc, Hst; (split; [done|]); (split; [done|]);
    [by left | by right].
Qed.

(** For every world in which the client stays connected: a session that
    does not reach the relay returns after exactly one error line followed
    by the closing of the transport, has opened its resources in stage
    order, and has called [close()] on the bastion, and on nothing else, if
    the bastion was opened. *)
Lemma aborted_session_report (slice_name node_name : string) :
  let s := (run w slice_name node_name).2 in
  EvCreateTask ∉ trace s →
  (run w slice_name node_name).1 = Ok tt ∧ aborted_view (view s).
Proof.
  simpl. destruct (run w slice_name node_name) as [r s] eqn:Hrun. simpl.
  unfold run, terminal_ws in Hrun. unfold bind at 1, call in Hrun.
  destruct Hrel as (Hacc & _ & _). rewrite Hacc in Hrun. simpl in Hrun.
  unfold bind at 1, emit, modify in Hrun. simpl in Hrun.
  set (s0 := mkSession [EvAccept] 0 false false false false) in Hrun.
  unfold bind, setup, try_except in Hrun.
  pose proof (setup_body_hoare slice_name node_name s0 eq_refl) as Hh.
  destruct (setup_body w slice_name node_name s0) as [[[|]|e] s1] eqn:Hbody;
    simpl in Hh.
  - injection Hrun as <- <-. by intros _.
  - destruct (setup_body_proceed _ _ _ _ _ Hbody) as (Hb & Ht & Hs).
    destruct (relay_spec w s1 Hs Ht Hb) as (mid & s2 & Hrelay & Hmid & Htr).
    rewrite Hrelay in Hrun. injection Hrun as <- <-.
    intros Hno. exfalso. apply Hno. rewrite Htr, !elem_of_app.
    right. left. apply list_elem_of_here.
  - intros _. destruct (setup_failed_aborts e s1 Hh) as [Hret Hview].
    destruct (setup_failed w e s1) as [[f|e'] s2]; simpl in Hret, Hview;
      [|discriminate].
    injection Hret as ->. by injection Hrun as <- <-.
Qed.

End ReliableTransport.

(** C1, at the failing input.  The target authenticates and the shell
    request is then refused: the session aborts before the relay with one
    error line and closes the transport, but of the resources the completed
    stages opened (bastion, tunnel, target) only the bastion is closed; no
    [close()] is attempted on the target connection. *)
Theorem target_left_open_when_shell_refused :
  let s := (run shell_refused_world "exp1" "node1").2 in
  opens (trace s) = [Bastion; Tunnel; Target]
  ∧ closes (trace s) = [Bastion]
  ∧ (Target ∉ closes (trace s))
  ∧ List.length (error_lines (trace s)) = 1
  ∧ (∃ before, trace s = (before ++ [EvWsClose; EvClose Bastion])%list)
  ∧ (EvCreateTask ∉ trace s).
Proof.
  intros s.
  assert (Hopens : opens (trace s) = [Bastion; Tunnel; Target])
    by (vm_compute; reflexivity).
  assert (Hcloses : closes (trace s) = [Bastion]) by (vm_compute; reflexivity).
  split; [exact Hopens|]. split; [exact Hcloses|]. split.
  { rewrite Hcloses. intros H%list_elem_of_singleton. discriminate. }
  split; [vm_compute; reflexivity|]. split.
  { exists (take 17 (trace s)). vm_compute. reflexivity. }
  rewrite list_elem_of_In. vm_compute. intros H.
  repeat (destruct H as [H|H]; [discriminate H|]). exact H.
Qed.

End TerminalFacts.

(** * Further properties of the slice routes *)

Section RouteFacts.
Import Slices SliceApi.

Ltac route_unfold :=
  unfold exec, eval, _get_slice_obj, _store_draft, _pop_draft, _get_draft,
    _is_draft, _is_new_draft, dict_pop, dict_get, dict_in, bind, ret, raise,
    call, get, put, modify, try_except; simpl.

(** [_serialize] returns or raises, and hands the store back as it got it. *)
Lemma serialize_run fab o dirty st : ∃ r, _serialize fab o dirty st = (r, st).
Proof.
  pose proof (exec_serialize fab o dirty st) as H. unfold exec in H.
  destruct (_serialize fab o dirty st) as [r st']. simpl in H. subst. eauto.
Qed.

Ltac run_serialize :=
  match goal with
  | |- context [_serialize ?fab ?o ?d ?s] =>
      let r := fresh "r" in
      let H := fresh "Hser" in
      destruct (serialize_run fab o d s) as [r H]; rewrite H; clear H;
      try destruct r
  end.

(** X1. Discarding a draft that was never submitted is purely local: the
    record is removed and the route answers "deleted" whatever the upstream
    would have said, because it is not asked. *)
Theorem discard_new_draft_is_local (fab : Fablib) (name : string) (ref : N)
  (st : DraftStore) :
  _draft_slices st !! name = Some (PySlice ref) →
  _draft_is_new st !! name = Some true →
  delete_slice fab name st
  = (Ok (Status "deleted" name), exec (_pop_draft name) st)
  ∧ delete_slice fab name st = delete_slice dead_fablib name st.
Proof.
  intros Hp Hb. unfold delete_slice. route_unfold. by rewrite Hp, Hb.
Qed.

Lemma discard_new_draft_is_local_witness :
  delete_slice dead_fablib "exp1"
    (exec (_store_draft "exp1" (PySlice 1) true) empty_store)
  = (Ok (Status "deleted" "exp1"),
     exec (_pop_draft "exp1")
          (exec (_store_draft "exp1" (PySlice 1) true) empty_store)).
Proof.
  apply (discard_new_draft_is_local dead_fablib "exp1" 1
           (exec (_store_draft "exp1" (PySlice 1) true) empty_store));
    vm_compute; reflexivity.
Defined.

(** X2. [delete_slice] always leaves the name without a draft: the draft
    is taken before upstream is asked and is not put back when the upstream
    deletion fails. *)
Theorem delete_slice_forgets_draft (fab : Fablib) (name : string)
  (st : DraftStore) :
  exec (delete_slice fab name) st = exec (_pop_draft name) st
  ∧ record_of name (exec (delete_slice fab name) st) = None
  ∧ eval (_is_draft name) (exec (delete_slice fab name) st) = Ok false.
Proof.
  assert (H : exec (delete_slice fab name) st = exec (_pop_draft name) st).
  { unfold delete_slice. route_unfold.
    destruct (is_not_None _ && _); simpl; [done|].
    destruct (get_fablib fab) as [[]|e0]; simpl; [|done].
    destruct (fablib_get_slice fab name) as [o|e1]; simpl; [|done].
    by destruct (on_object o (slice_delete fab o)) as [[]|e2]. }
  rewrite H. split; [done|]. rewrite exec_pop_draft.
  unfold record_of, eval, _is_draft, bind, get, ret, dict_in. simpl.
  rewrite !lookup_delete_eq. split; [done|].
  by rewrite bool_decide_eq_false_2 by (by intros [? ?]).
Qed.

(** X3. Submitting a name that has no draft is refused with 400 and the
    text "No pending changes to submit"; upstream is not asked and a store
    with no entry for the name is left as it is. *)
Theorem submit_without_draft_is_rejected (fab : Fablib) (name : string)
  (st : DraftStore) :
  _draft_slices st !! name = None →
  eval (submit_slice fab name) st
  = Raise (HTTPException 400 "No pending changes to submit")
  ∧ submit_slice fab name st = submit_slice dead_fablib name st
  ∧ (_draft_is_new st !! name = None → exec (submit_slice fab name) st = st).
Proof.
  intros Hp. unfold submit_slice. route_unfold. rewrite Hp. simpl.
  split; [done|]. split; [done|]. intros Hb. destruct st as [sl fl].
  simpl in *. by rewrite !delete_id.
Qed.

Lemma submit_without_draft_is_rejected_witness :
  eval (submit_slice demo_fablib "nothing") demo_store
  = Raise (HTTPException 400 "No pending changes to submit")
  ∧ exec (submit_slice demo_fablib "nothing") demo_store = demo_store.
Proof.
  destruct (submit_without_draft_is_rejected demo_fablib "nothing" demo_store)
    as (H1 & _ & H3); [vm_compute; reflexivity|].
  split; [exact H1 | apply H3; vm_compute; reflexivity].
Defined.

(** What [submit_slice] does with a draft that is there. *)
Lemma submit_slice_run fab name ref b st :
  _draft_slices st !! name = Some (PySlice ref) →
  _draft_is_new st !! name = Some b →
  submit_slice fab name st =
  match slice_submit fab (PySlice ref) b with
  | Raise e => (Raise (HTTPException 500 (str e)), st)
  | Ok _ =>
      match eval (_serialize fab (PySlice ref) false) (exec (_pop_draft name) st) with
      | Ok resp => (Ok resp, exec (_pop_draft name) st)
      | Raise e => (Raise (HTTPException 500 (str e)), st)
      end
  end.
Proof.
  intros Hp Hb.
  pose proof (store_after_pop name _ _ st Hp Hb) as Hback.
  rewrite exec_store_draft, exec_pop_draft in Hback.
  rewrite exec_pop_draft. simpl in Hback.
  unfold submit_slice. route_unfold. rewrite Hp, Hb. simpl.
  destruct b; simpl;
    (destruct (slice_submit fab (PySlice ref) _) as [[]|e]; simpl;
     [|by rewrite Hback]);
    run_serialize; simpl; try done; by rewrite Hback.
Qed.

(** X4. Submission is a move: when upstream accepts the draft and the
    answer can be built, the record leaves the store and nothing else in
    the store changes. *)
Theorem submit_success_moves_draft (fab : Fablib) (name : string) (ref : N)
  (b : bool) (resp : Response) (st : DraftStore) :
  _draft_slices st !! name = Some (PySlice ref) →
  _draft_is_new st !! name = Some b →
  slice_submit fab (PySlice ref) b = Ok tt →
  eval (_serialize fab (PySlice ref) false) (exec (_pop_draft name) st) = Ok resp →
  submit_slice fab name st = (Ok resp, exec (_pop_draft name) st)
  ∧ record_of name (exec (submit_slice fab name) st) = None
  ∧ ∀ other, other ≠ name →
      record_of other (exec (submit_slice fab name) st) = record_of other st.
Proof.
  intros Hp Hb Hsub Hser.
  assert (Hrun : submit_slice fab name st = (Ok resp, exec (_pop_draft name) st))
    by (by rewrite (submit_slice_run fab name ref b st Hp Hb), Hsub, Hser).
  assert (Hexec : exec (submit_slice fab name) st = exec (_pop_draft name) st)
    by (unfold exec at 1; by rewrite Hrun).
  split; [exact Hrun|]. rewrite Hexec, exec_pop_draft.
  unfold record_of. simpl. split.
  - by rewrite !lookup_delete_eq.
  - intros other Hne. by rewrite !lookup_delete_ne.
Qed.

Lemma submit_success_moves_draft_witness :
  record_of "exp2" (exec (submit_slice healed_fablib "exp2") demo_store) = None.
Proof.
  apply (submit_success_moves_draft healed_fablib "exp2" 2 false
           (SliceView (mkSliceDict "exp2" "StableOK" false EmptyString)
                      EmptyString) demo_store);
    vm_compute; reflexivity.
Defined.

(** X5. If upstream accepts the draft but the answer cannot be built
    afterwards, the route answers 500 and puts the draft back under its
    flag, although the submission went through. *)
Theorem submit_then_serialize_failure_keeps_draft (fab : Fablib)
  (name : string) (ref : N) (b : bool) (e : exn) (st : DraftStore) :
  _draft_slices st !! name = Some (PySlice ref) →
  _draft_is_new st !! name = Some b →
  slice_submit fab (PySlice ref) b = Ok tt →
  slice_to_dict fab (PySlice ref) = Raise e →
  submit_slice fab name st = (Raise (HTTPException 500 (str e)), st).
Proof.
  intros Hp Hb Hsub Hdict.
  rewrite (submit_slice_run fab name ref b st Hp Hb), Hsub.
  unfold eval, _serialize, bind, call. by rewrite Hdict.
Qed.

Lemma submit_then_serialize_failure_keeps_draft_witness :
  let fab := mkFablib (Ok tt) (λ _, Ok (PySlice 7)) (λ _, Ok (PySlice 1))
               (λ _ _, Ok tt) (λ _, Ok tt) (λ _, Ok tt)
               (λ _, Raise (Exception "no topology")) (λ _, Ok EmptyString) in
  submit_slice fab "exp2" demo_store
  = (Raise (HTTPException 500 "no topology"), demo_store).
Proof.
  intros fab.
  apply (submit_then_serialize_failure_keeps_draft fab "exp2" 2 false
           (Exception "no topology") demo_store);
    vm_compute; reflexivity.
Defined.

(** X6. After a failed submission the caller can submit again without
    loading anything: once upstream accepts, the second attempt succeeds
    and the draft is gone. *)
Theorem submit_retry_after_failure (fab1 fab2 : Fablib) (name : string)
  (ref : N) (b : bool) (e : exn) (resp : Response) (st : DraftStore) :
  _draft_slices st !! name = Some (PySlice ref) →
  _draft_is_new st !! name = Some b →
  slice_submit fab1 (PySlice ref) b = Raise e →
  slice_submit fab2 (PySlice ref) b = Ok tt →
  eval (_serialize fab2 (PySlice ref) false) (exec (_pop_draft name) st) = Ok resp →
  let st1 := exec (submit_slice fab1 name) st in
  eval (submit_slice fab1 name) st = Raise (HTTPException 500 (str e))
  ∧ eval (submit_slice fab2 name) st1 = Ok resp
  ∧ record_of name (exec (submit_slice fab2 name) st1) = None.
Proof.
  intros Hp Hb Hbad Hgood Hser. simpl.
  assert (H1 : submit_slice fab1 name st = (Raise (HTTPException 500 (str e)), st))
    by (by rewrite (submit_slice_run fab1 name ref b st Hp Hb), Hbad).
  assert (H2 : submit_slice fab2 name st = (Ok resp, exec (_pop_draft name) st))
    by (by rewrite (submit_slice_run fab2 name ref b st Hp Hb), Hgood, Hser).
  assert (Hst1 : exec (submit_slice fab1 name) st = st)
    by (unfold exec; by rewrite H1).
  rewrite Hst1. unfold eval, exec at 1. rewrite H1, H2. simpl.
  split; [done|]. split; [done|].
  rewrite exec_pop_draft. unfold record_of. simpl.
  by rewrite !lookup_delete_eq.
Qed.

Lemma submit_retry_after_failure_witness :
  eval (submit_slice healed_fablib "exp2")
       (exec (submit_slice demo_fablib "exp2") demo_store)
  = Ok (SliceView (mkSliceDict "exp2" "StableOK" false EmptyString) EmptyString).
Proof.
  apply (submit_retry_after_failure demo_fablib healed_fablib "exp2" 2 false
           (Exception "orchestrator unavailable")
           (SliceView (mkSliceDict "exp2" "StableOK" false EmptyString)
                      EmptyString) demo_store);
    vm_compute; reflexivity.
Defined.

(** X7. A GET of a name that has a draft answers from the draft: FABlib
    is not asked (the answer is the same with FABlib out of reach) and the
    store is left as it is. *)
Theorem get_slice_prefers_draft (fab : Fablib) (name : string) (ref : N)
  (st : DraftStore) :
  _draft_slices st !! name = Some (PySlice ref) →
  get_slice fab name st = get_slice (offline fab) name st
  ∧ exec (get_slice fab name) st = st.
Proof.
  intros Hp.
  assert (Hrun : ∀ f, slice_to_dict f = slice_to_dict fab →
                      build_graph f = build_graph fab →
                      get_slice f name st
                      = try_except (_serialize fab (PySlice ref) false)
                          (λ e, raise (HTTPException 404
                                         ("Slice not found: " ++ str e))) st).
  { intros f Hd Hg. unfold get_slice. route_unfold. rewrite Hp. simpl.
    rewrite bool_decide_eq_true_2 by eauto. simpl.
    unfold _serialize, bind, call, _is_draft, _is_new_draft, get, ret.
    by rewrite Hd, Hg. }
  split.
  - by rewrite (Hrun fab eq_refl eq_refl), (Hrun (offline fab) eq_refl eq_refl).
  - unfold exec. rewrite (Hrun fab eq_refl eq_refl). unfold try_except.
    destruct (serialize_run fab (PySlice ref) false st) as [r ->].
    by destruct r.
Qed.

Lemma get_slice_prefers_draft_witness :
  exec (get_slice demo_fablib "exp2") demo_store = demo_store.
Proof.
  apply (get_slice_prefers_draft demo_fablib "exp2" 2 demo_store).
  vm_compute; reflexivity.
Defined.

(** X8. Every failure of a GET is answered 404 with a text that starts
    "Slice not found: ", also when the slice was found and only the
    answer could not be built; and when the slice could not be obtained the
    store is left as it is. *)
Theorem get_slice_failures_are_404 (fab : Fablib) (name : string)
  (st : DraftStore) (e : exn) :
  eval (get_slice fab name) st = Raise e →
  (∃ cause, e = HTTPException 404 ("Slice not found: " ++ str cause))
  ∧ (∀ cause, eval (_get_slice_obj fab name) st = Raise cause →
              exec (get_slice fab name) st = st).
Proof.
  intros He. split.
  - revert He. unfold eval, get_slice, try_except.
    match goal with
    | |- context [bind ?m ?k st] => destruct (bind m k st) as [[r|cause] st1]
    end; simpl; [discriminate|].
    intros [= <-]. by exists cause.
  - intros cause Hobj. unfold exec, get_slice, try_except, bind at 1.
    unfold eval in Hobj.
    destruct (_get_slice_obj fab name st) as [[o|c] st1] eqn:Hrun;
      simpl in Hobj; [discriminate|].
    simpl. revert Hrun. unfold _get_slice_obj. route_unfold.
    destruct (is_not_None _); simpl; [discriminate|].
    destruct (get_fablib fab) as [[]|e0]; simpl; [|congruence].
    destruct (fablib_get_slice fab name); simpl; congruence.
Qed.

Lemma get_slice_failures_are_404_witness :
  ∃ cause,
    HTTPException 404 "Slice not found: slice not found"
    = HTTPException 404 ("Slice not found: " ++ str cause).
Proof.
  apply (get_slice_failures_are_404 demo_fablib "gone" empty_store
           (HTTPException 404 "Slice not found: slice not found")).
  vm_compute; reflexivity.
Defined.

(** X9. Creating a slice stores the new object as a draft flagged new under
    the name, replacing whatever draft the name had, whether or not the
    answer can then be built; when FABlib refuses to create it the route
    answers 500 and the store is left as it is. *)
Theorem create_slice_stores_new_draft (fab : Fablib) (name : string)
  (st : DraftStore) :
  get_fablib fab = Ok tt →
  (∀ o, fablib_new_slice fab name = Ok o →
        record_of name (exec (create_slice fab name) st) = Some (o, true))
  ∧ (∀ e, fablib_new_slice fab name = Raise e →
          create_slice fab name st = (Raise (HTTPException 500 (str e)), st)).
Proof.
  intros Hfab. split.
  - intros o Hnew. unfold create_slice. route_unfold. rewrite Hfab, Hnew. simpl.
    run_serialize; simpl; unfold record_of; simpl; by rewrite !lookup_insert_eq.
  - intros e Hnew. unfold create_slice. route_unfold. by rewrite Hfab, Hnew.
Qed.

Lemma create_slice_stores_new_draft_witness :
  record_of "exp2" (exec (create_slice demo_fablib "exp2") demo_store)
  = Some (PySlice 1, true).
Proof.
  apply (create_slice_stores_new_draft demo_fablib "exp2" demo_store);
    vm_compute; reflexivity.
Defined.

(** Every request does to the store one of four things, all on the record
    of its own name. *)
Lemma serve_touches_only fab r st :
  touches_only (target r) st (exec (serve fab r) st).
Proof.
  destruct r as [n|n|n|n|n]; simpl.
  - unfold get_slice. route_unfold.
    destruct (is_not_None _) eqn:Hd; simpl.
    + destruct (bool_decide _); simpl; run_serialize; simpl;
        first [by left | right; right; left; by eexists _, _].
    + destruct (get_fablib fab) as [[]|e0]; simpl; [|by left].
      destruct (fablib_get_slice fab n) as [o|e1]; simpl; [|by left].
      destruct (bool_decide _); simpl; run_serialize; simpl;
        first [by left | right; right; left; by eexists _, _].
  - unfold create_slice. route_unfold.
    destruct (get_fablib fab) as [[]|e0]; simpl; [|by left].
    destruct (fablib_new_slice fab n) as [o|e1]; simpl; [|by left].
    run_serialize; simpl; right; right; left; by eexists _, _.
  - unfold submit_slice. route_unfold.
    destruct (is_not_None _); simpl; [|by right; left].
    destruct (default true _); simpl;
      (match goal with
       | |- context [on_object ?o ?r] => destruct (on_object o r) as [[]|e]
       end; simpl;
       [run_serialize; simpl;
        first [by right; left | right; right; right; by eexists _, _]
       |right; right; right; by eexists _, _]).
  - rewrite exec_refresh_slice.
    destruct (get_fablib fab) as [[]|e0]; [|by right; left].
    destruct (fablib_get_slice fab n) as [o|e1]; [|by right; left].
    destruct (on_object o (slice_update fab o)) as [[]|e2]; [|by right; left].
    right; right; right. by eexists _, _.
  - right; left. apply delete_slice_forgets_draft.
Qed.

Lemma touches_only_aligned name st st' :
  touches_only name st st' → tables_aligned st → tables_aligned st'.
Proof.
  intros [-> | [-> | [(o & b & ->) | (o & b & ->)]]] Hal; auto using
    store_draft_aligned, pop_draft_aligned.
Qed.

Lemma touches_only_other name other st st' :
  touches_only name st st' → other ≠ name →
  _draft_slices st' !! other = _draft_slices st !! other
  ∧ _draft_is_new st' !! other = _draft_is_new st !! other.
Proof.
  intros [-> | [-> | [(o & b & ->) | (o & b & ->)]]] Hne;
    rewrite ?exec_store_draft, ?exec_pop_draft; simpl;
    rewrite ?lookup_insert_ne, ?lookup_delete_ne by done; done.
Qed.

(** X10. Whatever requests are served, in whatever order and whatever the
    upstream answers to each, the two tables of the store keep the same key
    set; in particular every store reached from the empty one does. *)
Theorem requests_keep_tables_aligned (reqs : list (Fablib * request))
  (st : DraftStore) :
  tables_aligned st → tables_aligned (serve_all reqs st).
Proof.
  revert st. induction reqs as [|[fab r] reqs IH]; intros st Hal; simpl.
  - exact Hal.
  - apply IH. eapply touches_only_aligned; [apply serve_touches_only | exact Hal].
Qed.

Lemma requests_keep_tables_aligned_witness :
  tables_aligned
    (serve_all [(demo_fablib, Create "exp1"); (demo_fablib, Get "exp3");
                (demo_fablib, Submit "exp1"); (dead_fablib, Refresh "exp3")]
               empty_store).
Proof.
  apply (requests_keep_tables_aligned _ empty_store), tables_aligned_empty.
Defined.

(** X11. A request leaves the records of all other names alone: drafts
    held under different names do not interfere. *)
Theorem request_leaves_other_names (fab : Fablib) (r : request)
  (other : string) (st : DraftStore) :
  other ≠ target r →
  record_of other (exec (serve fab r) st) = record_of other st
  ∧ eval (_is_draft other) (exec (serve fab r) st) = eval (_is_draft other) st
  ∧ eval (_is_new_draft other) (exec (serve fab r) st)
    = eval (_is_new_draft other) st.
Proof.
  intros Hne.
  destruct (touches_only_other _ other _ _ (serve_touches_only fab r st) Hne)
    as [Hs Hf].
  unfold record_of, eval, _is_draft, _is_new_draft, bind, get, ret, dict_in,
    dict_get. simpl. by rewrite Hs, Hf.
Qed.

Lemma request_leaves_other_names_witness :
  record_of "exp2" (exec (serve demo_fablib (Delete "exp1")) demo_store)
  = record_of "exp2" demo_store.
Proof.
  apply (request_leaves_other_names demo_fablib (Delete "exp1") "exp2"
           demo_store).
  intros H. discriminate H.
Defined.

(** X12. In an answer, a slice is shown in state "Draft" exactly when the
    name it reports is held as a draft that was never submitted; a draft
    loaded from upstream, and a slice that is no draft, keep the state
    FABlib reports.  The rest of the description is passed on, with the
    [dirty] flag the route asked for. *)
Theorem serialize_shows_new_drafts_as_draft (fab : Fablib) (o : pyobj)
  (dirty : bool) (st : DraftStore) (shown : SliceDict) (graph : string) :
  tables_aligned st →
  eval (_serialize fab o dirty) st = Ok (SliceView shown graph) →
  ∃ d, slice_to_dict fab o = Ok d
       ∧ sd_name shown = sd_name d
       ∧ sd_rest shown = sd_rest d
       ∧ sd_dirty shown = dirty
       ∧ sd_state shown
         = (if bool_decide (_draft_is_new st !! sd_name d = Some true)
            then "Draft" else sd_state d).
Proof.
  intros Hal. unfold eval, _serialize. route_unfold.
  destruct (slice_to_dict fab o) as [d|e]; simpl; [|discriminate].
  specialize (Hal (sd_name d)).
  destruct (_draft_slices st !! sd_name d) as [p|] eqn:Hp; simpl.
  - destruct (proj2 Hal (ltac:(eauto))) as [b Hb]. rewrite Hb. simpl.
    destruct b; simpl;
      (destruct (build_graph fab _) as [g|e]; simpl; [|discriminate]);
      intros [= <- <-]; exists d; simpl.
    + rewrite Hb. by rewrite bool_decide_eq_true_2.
    + rewrite Hb. by rewrite bool_decide_eq_false_2.
  - destruct (build_graph fab _) as [g|e]; simpl; [|discriminate].
    intros [= <- <-]. exists d. simpl.
    assert (Hb : _draft_is_new st !! sd_name d = None).
    { destruct (_draft_is_new st !! sd_name d) eqn:Hb; [|done].
      destruct (proj1 Hal (ltac:(eauto))) as [? ?]. discriminate. }
    rewrite Hb. by rewrite bool_decide_eq_false_2.
Qed.

Lemma serialize_shows_new_drafts_as_draft_witness :
  ∃ d, slice_to_dict demo_fablib (PySlice 2) = Ok d
       ∧ sd_name (mkSliceDict "exp2" "Draft" true EmptyString) = sd_name d
       ∧ sd_rest (mkSliceDict "exp2" "Draft" true EmptyString) = sd_rest d
       ∧ sd_dirty (mkSliceDict "exp2" "Draft" true EmptyString) = true
       ∧ sd_state (mkSliceDict "exp2" "Draft" true EmptyString)
         = (if bool_decide
                 (_draft_is_new (exec (_store_draft "exp2" (PySlice 2) true)
                                      empty_store) !! sd_name d = Some true)
            then "Draft" else sd_state d).
Proof.
  apply (serialize_shows_new_drafts_as_draft demo_fablib (PySlice 2) true
           (exec (_store_draft "exp2" (PySlice 2) true) empty_store)
           (mkSliceDict "exp2" "Draft" true EmptyString) EmptyString).
  - apply store_draft_aligned, tables_aligned_empty.
  - vm_compute; reflexivity.
Defined.

End RouteFacts.

(** * Further properties of the terminal relay *)

Section RelayFacts.
Import Terminal Relay.

Lemma logged_nil s : logged s [] = s.
Proof. destruct s. unfold logged. simpl. by rewrite app_nil_r. Qed.

(** One turn of the receive loop never raises, logs at most one shell call,
    and whether the loop goes on does not depend on the session. *)
Lemma receive_iteration_run w msg shell_call s :
  ∃ evs,
    receive_iteration w msg shell_call s
    = (Ok (goes_on w (Recv msg shell_call)), logged s evs)
    ∧ (evs = [] ∨ (∃ d, evs = [EvShellSend d])
       ∨ (∃ c r ok, evs = [EvResize c r ok])).
Proof.
  unfold goes_on, receive_iteration, dispatch, try_except, bind, call, emit,
    modify, ret, py_get, py_getitem. simpl.
  destruct msg as [text|e]; simpl; [|exists []; rewrite logged_nil; auto].
  destruct (json_loads w text) as [parsed|e]; simpl;
    [|exists []; rewrite logged_nil; auto].
  destruct parsed as [| | | | | |items]; simpl;
    try (exists []; rewrite logged_nil; by auto).
  destruct (eq_str (default JNull (items_lookup "type" items)) "input"); simpl.
  - destruct (items_lookup "data" items) as [d|]; simpl;
      [|exists []; rewrite logged_nil; by auto].
    exists [EvShellSend d]. split; [|by eauto].
    by destruct shell_call as [[]|e].
  - destruct (eq_str (default JNull (items_lookup "type" items)) "resize");
      simpl; [|exists []; rewrite logged_nil; by auto].
    eexists [EvResize _ _ _]. split; [|by eauto 6].
    by destruct shell_call as [[]|e].
Qed.

(** X13. An "input" message is written to the shell exactly once, as it
    is, and the loop goes on if the shell took it. *)
Theorem input_message_reaches_shell (w : World) (text : string)
  (items : list (string * json)) (data : json) (shell_call : res unit)
  (s : Session) :
  json_loads w text = Ok (JObj items) →
  items_lookup "type" items = Some (JStr "input") →
  items_lookup "data" items = Some data →
  receive_iteration w (Ok text) shell_call s
  = (Ok (is_ok shell_call), logged s [EvShellSend data])
  ∧ shell_sends (trace (receive_iteration w (Ok text) shell_call s).2)
    = (shell_sends (trace s) ++ [data])%list.
Proof.
  intros Hparse Hty Hdata.
  assert (Hrun : receive_iteration w (Ok text) shell_call s
                 = (Ok (is_ok shell_call), logged s [EvShellSend data])).
  { unfold receive_iteration, dispatch, try_except, bind, call, emit, modify,
      ret, py_get, py_getitem. simpl. rewrite Hparse. simpl. rewrite Hty. simpl.
    rewrite Hdata. simpl. by destruct shell_call as [[]|e]. }
  split; [exact Hrun|]. rewrite Hrun. simpl.
  generalize (trace s). intros t. induction t as [|ev t IH]; [done|].
  destruct ev; simpl; by rewrite ?IH.
Qed.

Lemma input_message_reaches_shell_witness :
  shell_sends (trace (receive_iteration stubborn_close_world (Ok "input ls")
                        (Ok tt) init_session).2) = [JStr "ls"].
Proof.
  apply (input_message_reaches_shell stubborn_close_world "input ls"
           [("type", JStr "input"); ("data", JStr "ls")] (JStr "ls") (Ok tt)
           init_session eq_refl eq_refl eq_refl).
Defined.

(** X14. A message that is an object of any other type, or of none, is
    ignored: nothing reaches the shell, the session is as it was, and the
    loop goes on. *)
Theorem unknown_message_is_ignored (w : World) (text : string)
  (items : list (string * json)) (shell_call : res unit) (s : Session) :
  json_loads w text = Ok (JObj items) →
  items_lookup "type" items ≠ Some (JStr "input") →
  items_lookup "type" items ≠ Some (JStr "resize") →
  receive_iteration w (Ok text) shell_call s = (Ok true, s).
Proof.
  intros Hparse Hin Hre.
  unfold receive_iteration, dispatch, try_except, bind, call, emit, modify,
    ret, py_get. simpl. rewrite Hparse. simpl.
  assert (Hno : ∀ lit, items_lookup "type" items ≠ Some (JStr lit) →
                       eq_str (default JNull (items_lookup "type" items)) lit
                       = false).
  { intros lit Hne. destruct (items_lookup "type" items) as [[| | | |t| |]|];
      simpl; try done.
    apply bool_decide_eq_false_2. congruence. }
  by rewrite (Hno _ Hin), (Hno _ Hre).
Qed.

Lemma unknown_message_is_ignored_witness :
  let w := demo_world (Ok tt) (λ _, Ok tt) [] in
  let w' := mkWorld (ws_accept w) (ws_send_text w) (ws_close w) (w_get_fablib w)
              (w_get_slice w) (w_get_node w) (w_management_ip w) (w_username w)
              (w_environ w) (w_get_bastion_username w) (from_private_key_file w)
              (bastion_connect w) (open_channel w) (target_connect w)
              (invoke_shell w) (setblocking w) (close w)
              (λ _, Ok (JObj [("type", JStr "ping")])) [] in
  receive_iteration w' (Ok "ping") (Ok tt) init_session = (Ok true, init_session).
Proof.
  intros w w'.
  apply (unknown_message_is_ignored w' "ping" [("type", JStr "ping")] (Ok tt)
           init_session eq_refl); intros H; discriminate H.
Defined.

(** X15. The receive loop ends, with nothing written to the shell and the
    session as it was, when the client is gone, when the text is not JSON,
    when it is JSON but not an object, and when an "input" message carries
    no data. *)
Theorem bad_message_ends_the_loop (w : World) (shell_call : res unit)
  (s : Session) :
  (∀ e, receive_iteration w (Raise e) shell_call s = (Ok false, s))
  ∧ (∀ text e, json_loads w text = Raise e →
               receive_iteration w (Ok text) shell_call s = (Ok false, s))
  ∧ (∀ text parsed, json_loads w text = Ok parsed →
                    (∀ items, parsed ≠ JObj items) →
                    receive_iteration w (Ok text) shell_call s = (Ok false, s))
  ∧ (∀ text items, json_loads w text = Ok (JObj items) →
                   items_lookup "type" items = Some (JStr "input") →
                   items_lookup "data" items = None →
                   receive_iteration w (Ok text) shell_call s = (Ok false, s)).
Proof.
  unfold receive_iteration, dispatch, try_except, bind, call, emit, modify,
    ret, py_get, py_getitem. simpl.
  split; [done|]. split; [by intros text e ->|]. split.
  - intros text parsed -> Hno. simpl.
    destruct parsed as [| | | | | |items]; simpl; try done.
    by destruct (Hno items).
  - intros text items -> Hty Hdata. simpl. rewrite Hty. simpl. by rewrite Hdata.
Qed.

Lemma bad_message_ends_the_loop_witness :
  receive_iteration stubborn_close_world (Ok "not json") (Ok tt) init_session
  = (Ok false, init_session).
Proof.
  apply (bad_message_ends_the_loop stubborn_close_world (Ok tt) init_session)
    with (e := Exception "Expecting value").
  vm_compute; reflexivity.
Defined.

(** X16. Once the receive loop has ended, nothing that was still to come
    is acted on: no later message reaches the shell and no later poll
    reaches the client. *)
Theorem nothing_runs_after_the_loop_ended (w : World) (before after : list turn)
  (msg : res string) (shell_call : res unit) (s : Session) :
  goes_on w (Recv msg shell_call) = false →
  relay_loop w (before ++ Recv msg shell_call :: after) s
  = relay_loop w (before ++ [Recv msg shell_call]) s.
Proof.
  intros Hend. revert s.
  induction before as [|[sr|m c] before IH]; intros s; simpl.
  - unfold bind. destruct (receive_iteration_run w msg shell_call s) as (evs & -> & _).
    by rewrite Hend.
  - unfold bind. destruct (read_ssh_iteration w sr s) as [[[]|e] s1]; [apply IH|done].
  - unfold bind. destruct (receive_iteration_run w m c s) as (evs & -> & _).
    destruct (goes_on w (Recv m c)); [apply IH|done].
Qed.

Lemma nothing_runs_after_the_loop_ended_witness :
  relay_loop stubborn_close_world
    ([Recv (Ok "input ls") (Ok tt)]
       ++ Recv (Raise WebSocketDisconnect) (Ok tt)
       :: [Recv (Ok "input ls") (Ok tt)]) init_session
  = relay_loop stubborn_close_world
      ([Recv (Ok "input ls") (Ok tt)]
         ++ [Recv (Raise WebSocketDisconnect) (Ok tt)]) init_session.
Proof.
  apply (nothing_runs_after_the_loop_ended stubborn_close_world
           [Recv (Ok "input ls") (Ok tt)] [Recv (Ok "input ls") (Ok tt)]
           (Raise WebSocketDisconnect) (Ok tt) init_session).
  vm_compute; reflexivity.
Defined.

Lemma outputs_app t1 t2 : outputs (t1 ++ t2) = (outputs t1 ++ outputs t2)%list.
Proof.
  induction t1 as [|e t1 IH]; [done|].
  destruct e as [|[]| | | | | | | | |]; simpl; by rewrite ?IH.
Qed.

(** One turn of the polling task: while it runs it forwards what it read,
    if anything, and it stops when that send fails. *)
Lemma read_ssh_iteration_run w sr s :
  let data := _read_shell sr in
  let s' := (read_ssh_iteration w sr s).2 in
  task_alive s'
  = task_alive s && (negb (non_empty data) || is_ok (ws_send_text w (sends s)))
  ∧ outputs (trace s')
    = (outputs (trace s)
         ++ (if task_alive s && non_empty data && is_ok (ws_send_text w (sends s))
             then [data] else []))%list
  ∧ shell_sends (trace s') = shell_sends (trace s).
Proof.
  assert (Hss : ∀ t e, shell_sends (t ++ [e])
                       = (shell_sends t ++ shell_sends [e])%list).
  { intros t e. induction t as [|ev t IH]; [done|].
    destruct ev; simpl; by rewrite ?IH. }
  unfold read_ssh_iteration, try_except, send_text, count_send, emit, modify,
    set_task, bind, call, get, put, ret. simpl.
  destruct (task_alive s) eqn:Halive; simpl;
    [|by rewrite app_nil_r, Halive].
  destruct (non_empty (_read_shell sr)); simpl.
  - destruct (ws_send_text w (sends s)) as [[]|e]; simpl.
    + by rewrite outputs_app, Hss, Halive, app_nil_r.
    + by rewrite app_nil_r.
  - by rewrite outputs_app, Hss, Halive, !app_nil_r.
Qed.

(** X17. Shell output reaches the client in the order it was read, with
    nothing added, repeated or left out in between: what the client got
    during the relay is an initial part of what the polls read.  It is all
    of it when the polling task was running, every send went through and
    the receive loop went on through the whole schedule. *)
Theorem shell_output_is_forwarded_in_order (w : World) (sch : list turn)
  (s : Session) :
  let s' := (relay_loop w sch s).2 in
  (∃ sent, outputs (trace s') = (outputs (trace s) ++ sent)%list
           ∧ sent `prefix_of` polled sch)
  ∧ (task_alive s = true →
     (∀ n, ws_send_text w n = Ok tt) →
     forallb (goes_on w) sch = true →
     outputs (trace s') = (outputs (trace s) ++ polled sch)%list).
Proof.
  simpl. split.
  - assert (H : ∃ sent, outputs (trace (relay_loop w sch s).2)
                        = (outputs (trace s) ++ sent)%list
                        ∧ sent `prefix_of` polled sch
                        ∧ (task_alive s = false → sent = [])).
    { revert s. induction sch as [|[sr|m c] sch IH]; intros s; simpl.
      - exists []. by rewrite app_nil_r.
      - unfold bind.
        pose proof (read_ssh_iteration_run w sr s) as (Ha & Ho & _).
        pose proof (read_ssh_iteration_ok w sr s) as Hok.
        destruct (read_ssh_iteration w sr s) as [[[]|e] s1]; simpl in *;
          [|discriminate].
        destruct (IH s1) as (sent & Hout & Hpre & Hdead).
        rewrite Hout, Ho.
        destruct (task_alive s); simpl in *.
        + destruct (non_empty (_read_shell sr)); simpl in *.
          * destruct (ws_send_text w (sends s)) as [[]|e]; simpl in *.
            -- exists (_read_shell sr :: sent). rewrite <- app_assoc.
               split; [done|]. split; [by apply prefix_cons|done].
            -- rewrite (Hdead Ha), !app_nil_r. exists [].
               rewrite app_nil_r. split; [done|]. split; [|done].
               apply prefix_nil.
          * rewrite app_nil_r. exists sent. by split.
        + rewrite (Hdead Ha), !app_nil_r. exists [].
          rewrite app_nil_r. split; [done|]. split; [apply prefix_nil|done].
      - unfold bind. destruct (receive_iteration_run w m c s) as (evs & -> & Hevs).
        assert (Hsame : outputs (trace (logged s evs)) = outputs (trace s)).
        { unfold logged. simpl. rewrite outputs_app.
          destruct Hevs as [-> | [(d & ->) | (cc & r & ok & ->)]]; simpl;
            by rewrite app_nil_r. }
        destruct (goes_on w (Recv m c)); simpl.
        + destruct (IH (logged s evs)) as (sent & Hout & Hpre & Hdead).
          exists sent. by rewrite Hout, Hsame.
        + exists []. unfold logged in Hsame. simpl in Hsame.
          rewrite Hsame, app_nil_r. split; [done|].
          split; [apply prefix_nil|done]. }
    destruct H as (sent & H1 & H2 & _). eauto.
  - intros Halive Hsend. revert s Halive.
    induction sch as [|[sr|m c] sch IH]; intros s Halive Hgo;
      cbn [forallb] in Hgo; simpl.
    + by rewrite app_nil_r.
    + unfold bind.
      pose proof (read_ssh_iteration_run w sr s) as (Ha & Ho & _).
      pose proof (read_ssh_iteration_ok w sr s) as Hok.
      destruct (read_ssh_iteration w sr s) as [[[]|e] s1]; simpl in *;
        [|discriminate].
      rewrite Halive, Hsend in Ha, Ho. simpl in Ha, Ho.
      rewrite orb_true_r in Ha. rewrite andb_true_r in Ho.
      rewrite (IH s1 Ha Hgo), Ho.
      destruct (non_empty (_read_shell sr)); simpl;
        by rewrite <- ?app_assoc, ?app_nil_r.
    + apply andb_prop in Hgo as [Hm Hgo]. unfold bind.
      destruct (receive_iteration_run w m c s) as (evs & -> & Hevs).
      rewrite Hm.
      rewrite (IH (logged s evs) Halive Hgo). unfold logged. simpl.
      rewrite outputs_app.
      destruct Hevs as [-> | [(d & ->) | (cc & r & ok & ->)]]; simpl;
        by rewrite app_nil_r.
Qed.

Lemma shell_output_is_forwarded_in_order_witness :
  outputs (trace (relay_loop stubborn_close_world
                    (schedule stubborn_close_world) relay_start).2)
  = ["file.txt"].
Proof.
  apply (shell_output_is_forwarded_in_order stubborn_close_world
           (schedule stubborn_close_world) relay_start);
    [reflexivity | intros n; reflexivity | vm_compute; reflexivity].
Defined.

(** X18. The polling task outlives every failure to read the shell: when
    the channel is not ready or a read raises, the turn sends nothing and
    sleeps.  The one thing that stops the task is a failed send to the
    client. *)
Theorem polling_stops_only_on_send_failure (w : World) (sr : shell_read)
  (s : Session) :
  task_alive s = true →
  let s' := (read_ssh_iteration w sr s).2 in
  (task_alive s' = false
   ↔ non_empty (_read_shell sr) = true
     ∧ is_ok (ws_send_text w (sends s)) = false)
  ∧ (is_ok (recv_ready sr) = false ∨ recv_ready sr = Ok false
     ∨ is_ok (recv sr) = false →
     read_ssh_iteration w sr s = (Ok tt, logged s [EvSleep])).
Proof.
  intros Halive. simpl. split.
  - destruct (read_ssh_iteration_run w sr s) as (Ha & _). rewrite Ha, Halive.
    simpl. destruct (non_empty _), (is_ok _); simpl; intuition discriminate.
  - intros Hfail.
    assert (Hempty : _read_shell sr = EmptyString).
    { unfold _read_shell.
      destruct Hfail as [H | [H | H]];
        destruct (recv_ready sr) as [[]|e], (recv sr) as [d|e'];
        simpl in H; try done; discriminate. }
    unfold read_ssh_iteration, try_except, bind, get, emit, modify. simpl.
    by rewrite Halive, Hempty.
Qed.

Lemma polling_stops_only_on_send_failure_witness :
  read_ssh_iteration stubborn_close_world
    (mkShellRead (Ok true) (Raise (Exception "timed out"))) relay_start
  = (Ok tt, logged relay_start [EvSleep]).
Proof.
  apply (polling_stops_only_on_send_failure stubborn_close_world
           (mkShellRead (Ok true) (Raise (Exception "timed out")))
           relay_start eq_refl).
  right; right; reflexivity.
Defined.

Lemma view_notices s : vw_notices (view s) = client_notices (trace s).
Proof.
  unfold view, view_of_trace.
  assert (H : ∀ t v, vw_notices (fold_left (λ v e, see e v) t v)
                     = (vw_notices v ++ client_notices t)%list).
  { intros t. induction t as [|e t IH]; intros v; simpl.
    - by rewrite app_nil_r.
    - rewrite IH. destruct e as [|[]| | | | | | | | |]; simpl;
        by rewrite <- ?app_assoc. }
  by rewrite H.
Qed.

(** X19. While the client stays connected, a session that does not reach
    the relay ends in one way: the handler returns after exactly one error
    line followed by the closing of the transport; the resources opened are
    an initial part of bastion, tunnel, target, shell; and the handler has
    called [close()] on the bastion if it was opened, and on nothing else. *)
Theorem aborted_setup_is_reported (w : World) (slice_name node_name : string) :
  reliable_transport w →
  let s := (run w slice_name node_name).2 in
  EvCreateTask ∉ trace s →
  (run w slice_name node_name).1 = Ok tt
  ∧ client_notices (trace s) = [ErrorShown; TransportClosed]
  ∧ opens (trace s) `prefix_of` [Bastion; Tunnel; Target; Shell]
  ∧ (Bastion ∈ opens (trace s) → closes (trace s) = [Bastion])
  ∧ (Bastion ∉ opens (trace s) → closes (trace s) = []).
Proof.
  intros Hrel s Hno.
  destruct (aborted_session_report w Hrel slice_name node_name Hno)
    as (Hr & Hn & _ & Hcases).
  fold s in Hn, Hcases.
  rewrite view_notices in Hn. rewrite view_opens, view_closes in Hcases.
  split; [exact Hr|]. split; [exact Hn|].
  destruct Hcases as [[Ho Hc] | (Hpre & Hin & Hc)].
  - rewrite Ho, Hc. split; [apply prefix_nil|]. split; [|done].
    by intros ?%elem_of_nil.
  - split; [exact Hpre|]. split; [done|]. by intros [].
Qed.

Lemma aborted_setup_is_reported_witness :
  (run shell_refused_world "exp1" "node1").1 = Ok tt
  ∧ client_notices (trace (run shell_refused_world "exp1" "node1").2)
    = [ErrorShown; TransportClosed].
Proof.
  destruct (aborted_setup_is_reported shell_refused_world "exp1" "node1")
    as (H1 & H2 & _).
  - split; [reflexivity|]. split; [intros n; reflexivity | reflexivity].
  - rewrite list_elem_of_In. vm_compute. intros H.
    repeat (destruct H as [H|H]; [discriminate H|]). exact H.
  - exact (conj H1 H2).
Defined.



End RelayFacts.

(** * Properties of slice validation *)

Section ValidateFacts.
Import Slices Validate.

Lemma no_error_filter (l : list Issue) :
  (List.length (filter (λ i, is_error i = true) l) =? 0)%nat = true
  ↔ Forall (λ i, is_error i = false) l.
Proof.
  rewrite Nat.eqb_eq. induction l as [|i l IH]; simpl.
  - split; [constructor | done].
  - rewrite filter_cons. destruct (decide (is_error i = true)) as [He|He]; simpl.
    + split; [discriminate|]. intros H. inversion H; congruence.
    + rewrite IH. split.
      * intros H. constructor; [by destruct (is_error i) | done].
      * intros H. by inversion H.
Qed.

Lemma all_errors_none (l : list Issue) :
  Forall (λ i, is_error i = true) l →
  Forall (λ i, is_error i = false) l ↔ l = [].
Proof.
  intros Hall. split; [|intros ->; constructor].
  destruct l as [|i l]; [done|]. intros H.
  inversion Hall; inversion H; congruence.
Qed.

Lemma node_issues_errors node : Forall (λ i, is_error i = true) (node_issues node).
Proof.
  unfold node_issues.
  repeat match goal with
         | |- context [if ?c then _ else _] => destruct c
         end; simpl; repeat constructor.
Qed.

Lemma network_issues_errors net :
  Forall (λ i, is_error i = true) (network_issues net).
Proof.
  unfold network_issues.
  repeat match goal with
         | |- context [if ?c then _ else _] => destruct c
         end; simpl; repeat constructor.
Qed.






Lemma unconnected_issues_map node :
  unconnected_issues node
  = map warning_for
      (flat_map (λ comp,
                   flat_map (λ iface, if py_truth (if_network_name iface) then []
                                      else [(node, iface)])
                            (comp_interfaces comp))
                (nd_components node)).
Proof.
  unfold unconnected_issues.
  induction (nd_components node) as [|comp comps IH]; [done|]. simpl.
  rewrite map_app, <- IH. f_equal.
  induction (comp_interfaces comp) as [|iface ifaces IHi]; [done|]. simpl.
  rewrite map_app, <- IHi. f_equal.
  by destruct (py_truth (if_network_name iface)).
Qed.

(** X22. The report lists all errors first and then one warning for each
    interface of a node's component that names no network, in the order of
    the nodes, their components and their interfaces; nothing else is a
    warning, and the slice is valid exactly when there is no error. *)
Theorem warnings_are_the_unconnected_interfaces (data : SliceData) :
  ∃ errors,
    issues (validate data)
    = (errors ++ map warning_for (unconnected data))%list
    ∧ Forall (λ i, severity i = "error") errors
    ∧ Forall (λ i, severity i = "warning") (map warning_for (unconnected data))
    ∧ (valid (validate data) = true ↔ errors = []).
Proof.
  set (head := match sl_nodes data with
               | [] => [mkIssue "error" "Slice has no nodes."
                                "Add at least one node using the editor panel."]
               | _ => []
               end).
  exists (head ++ flat_map node_issues (sl_nodes data)
            ++ flat_map network_issues (sl_networks data))%list.
  assert (Hw : flat_map unconnected_issues (sl_nodes data)
               = map warning_for (unconnected data)).
  { unfold unconnected. induction (sl_nodes data) as [|node nodes IH]; [done|].
    simpl. by rewrite map_app, <- IH, unconnected_issues_map. }
  assert (Herr : Forall (λ i, is_error i = true)
                   (head ++ flat_map node_issues (sl_nodes data)
                      ++ flat_map network_issues (sl_networks data))).
  { rewrite !Forall_app. split; [|split].
    - subst head. destruct (sl_nodes data); repeat constructor.
    - apply Forall_flat_map, Forall_forall. intros node _.
      apply node_issues_errors.
    - apply Forall_flat_map, Forall_forall. intros net _.
      apply network_issues_errors. }
  assert (Hwarn : Forall (λ i, is_error i = false)
                    (map warning_for (unconnected data))).
  { apply Forall_map, Forall_forall. by intros [node iface] _. }
  split; [|split; [|split]].
  - unfold validate. cbn [issues]. fold head. by rewrite Hw, <- !app_assoc.
  - eapply Forall_impl; [exact Herr|]. intros i Hi.
    by apply bool_decide_eq_true_1 in Hi.
  - apply Forall_map, Forall_forall. by intros [node iface] _.
  - unfold validate. cbn [valid]. fold head.
    rewrite no_error_filter, Hw, !app_assoc, Forall_app.
    rewrite <- !app_assoc. rewrite (all_errors_none _ Herr).
    split; [by intros [? _] | by intros ->].
Qed.

(** X23. [validate_slice] never changes the draft store.  It validates the
    draft when the name has one, without asking FABlib, and it answers 404
    "Slice not found: ..." when the slice cannot be obtained. *)
Theorem validate_slice_reads_only (fab : Fablib)
  (slice_data : pyobj → res SliceData) (name : string) (st : DraftStore) :
  exec (validate_slice fab slice_data name) st = st
  ∧ (∀ ref, _draft_slices st !! name = Some (PySlice ref) →
            eval (validate_slice fab slice_data name) st
            = match slice_data (PySlice ref) with
              | Ok data => Ok (validate data)
              | Raise e => Raise e
              end)
  ∧ (∀ e, eval (_get_slice_obj fab name) st = Raise e →
          eval (validate_slice fab slice_data name) st
          = Raise (HTTPException 404 ("Slice not found: " ++ str e))).
Proof.
  unfold validate_slice, exec, eval, _get_slice_obj, _get_draft, try_except,
    bind, call, get, ret, raise, dict_get. simpl. split; [|split].
  - destruct (is_not_None _); simpl.
    + by destruct (slice_data _).
    + destruct (get_fablib fab) as [[]|e0]; simpl; [|done].
      destruct (fablib_get_slice fab name) as [o|e1]; simpl; [|done].
      by destruct (slice_data o).
  - intros ref ->. simpl. by destruct (slice_data (PySlice ref)).
  - destruct (is_not_None _); simpl; [discriminate|].
    destruct (get_fablib fab) as [[]|e0]; simpl; [|by intros e [= ->]].
    destruct (fablib_get_slice fab name) as [o|e1]; simpl;
      [discriminate | by intros e [= ->]].
Qed.

Lemma validate_slice_reads_only_witness :
  eval (validate_slice SliceApi.dead_fablib (λ _, Ok demo_data) "exp2")
       demo_store
  = Ok (validate demo_data).
Proof.
  apply (validate_slice_reads_only SliceApi.dead_fablib (λ _, Ok demo_data)
           "exp2" demo_store) with (ref := 2%N).
  vm_compute; reflexivity.
Defined.

End ValidateFacts.

(** * Properties of the editing routes *)

Section EditFacts.
Import Slices SliceEdit.

Lemma get_slice_obj_run fab name st : ∃ r, _get_slice_obj fab name st = (r, st).
Proof.
  unfold _get_slice_obj, _get_draft, bind, get, ret, call.
  destruct (is_not_None _); [eauto|].
  destruct (get_fablib fab); eauto.
Qed.

Lemma keeps_ret {A} (a : A) : keeps_store (ret a).
Proof. by intros s. Qed.

Lemma keeps_raise {A} e : keeps_store (raise (A:=A) e).
Proof. by intros s. Qed.

Lemma keeps_call {A} (r : res A) : keeps_store (call r).
Proof. by intros s. Qed.

Lemma keeps_bind {A B} (m : Edit A) (k : A → Edit B) :
  keeps_store m → (∀ a, keeps_store (k a)) → keeps_store (bind m k).
Proof.
  intros Hm Hk s. unfold bind. specialize (Hm s).
  destruct (m s) as [[a|e] s1]; simpl in Hm; [|done].
  destruct Hm as [Hst Hpre]. destruct (Hk a s1) as [Hst' Hpre'].
  split; [congruence | by etrans].
Qed.

Lemma keeps_try_except {A} (m : Edit A) (h : exn → Edit A) :
  keeps_store m → (∀ e, keeps_store (h e)) → keeps_store (try_except m h).
Proof.
  intros Hm Hh s. unfold try_except. specialize (Hm s).
  destruct (m s) as [[a|e] s1]; simpl in Hm; [done|].
  destruct Hm as [Hst Hpre]. destruct (Hh e s1) as [Hst' Hpre'].
  split; [congruence | by etrans].
Qed.

Lemma keeps_change obj c : keeps_store (change obj c).
Proof.
  intros s. unfold change, bind, modify, call. simpl.
  split; [done | by apply prefix_app_r].
Qed.

Lemma keeps_on_store {A} (m : Route A) :
  (∀ st, ∃ r, m st = (r, st)) → keeps_store (on_store m).
Proof.
  intros Hm s. unfold on_store. destruct (Hm (es_store s)) as [r ->]. by simpl.
Qed.

Lemma keeps_slice_method {A} o (m : Edit A) :
  keeps_store m → keeps_store (slice_method o m).
Proof. intros Hm. destruct o; [apply keeps_raise | exact Hm]. Qed.

Lemma keeps_when_given {A} (x : option A) (f : A → Edit unit) :
  (∀ v, keeps_store (f v)) → keeps_store (when_given x f).
Proof. intros Hf. destruct x; [apply Hf | apply keeps_ret]. Qed.

Lemma keeps_for_each {A B} (l : list A) (body : B → A → Edit B) acc :
  (∀ b a, keeps_store (body b a)) → keeps_store (for_each l body acc).
Proof.
  intros Hb. revert acc. induction l as [|x l IH]; intros acc; simpl.
  - apply keeps_ret.
  - apply keeps_bind; [apply Hb | intros b; apply IH].
Qed.

Ltac keeps_step :=
  first
    [ apply keeps_ret | apply keeps_raise | apply keeps_call
    | apply keeps_change
    | apply keeps_on_store; intros; first [apply get_slice_obj_run | apply serialize_run]
    | apply keeps_slice_method | apply keeps_when_given; intros
    | apply keeps_for_each; intros
    | apply keeps_bind; [|intros] | apply keeps_try_except; [|intros]
    | match goal with |- keeps_store (if ?b then _ else _) => destruct b end ].

Lemma keeps_serve_edit fab obj name r : keeps_store (serve_edit fab obj name r).
Proof.
  destruct r; simpl;
    unfold add_node, remove_node, update_node, add_component, remove_component,
      add_network, remove_network, resolve_interfaces, failed_500;
    repeat keeps_step.
Qed.

Lemma failed_500_raises {A} (m : Edit A) s e :
  (try_except m failed_500 s).1 = Raise e → ∃ detail, e = HTTPException 500 detail.
Proof.
  unfold try_except, failed_500, raise. destruct (m s) as [[a|e'] s1]; simpl.
  - discriminate.
  - intros [= <-]. eauto.
Qed.

(** X24. No editing route touches the draft store: whatever FABlib answers,
    the two tables are afterwards what they were, so a slice that had no
    draft still has none after it was edited.  The changes asked of FABlib
    before are still in the log, in place, and every failure is an HTTP 500. *)
Theorem edits_leave_the_store (fab : Fablib) (obj : Objects) (name : string)
  (r : edit_request) (s : EditState) :
  es_store (serve_edit fab obj name r s).2 = es_store s
  ∧ es_calls s `prefix_of` es_calls (serve_edit fab obj name r s).2
  ∧ ∀ e, (serve_edit fab obj name r s).1 = Raise e →
         ∃ detail, e = HTTPException 500 detail.
Proof.
  destruct (keeps_serve_edit fab obj name r s) as [Hst Hpre].
  split; [exact Hst|]. split; [exact Hpre|].
  intros e. destruct r; simpl; apply failed_500_raises.
Qed.

Lemma on_store_get_slice_obj fab name s r :
  eval (_get_slice_obj fab name) (es_store s) = r →
  on_store (_get_slice_obj fab name) s = (r, s).
Proof.
  unfold eval, on_store. intros <-.
  destruct (get_slice_obj_run fab name (es_store s)) as [r ->]. simpl.
  by destruct s.
Qed.

Lemma on_store_serialize fab o dirty s :
  on_store (_serialize fab o dirty) s
  = (eval (_serialize fab o dirty) (es_store s), s).
Proof.
  unfold eval, on_store.
  destruct (serialize_run fab o dirty (es_store s)) as [r ->]. simpl.
  by destruct s.
Qed.

(** X25. An edit of a slice that cannot be obtained asks nothing of FABlib
    and changes nothing: the route answers HTTP 500 with the text of the
    cause. *)
Theorem edit_of_unknown_slice_changes_nothing (fab : Fablib) (obj : Objects)
  (name : string) (r : edit_request) (s : EditState) (e : exn)
  (Hfail : eval (_get_slice_obj fab name) (es_store s) = Raise e) :
  serve_edit fab obj name r s = (Raise (HTTPException 500 (str e)), s).
Proof.
  apply on_store_get_slice_obj in Hfail.
  destruct r; simpl;
    unfold add_node, remove_node, update_node, add_component, remove_component,
      add_network, remove_network, try_except, bind;
    rewrite Hfail; reflexivity.
Qed.

Lemma edit_of_unknown_slice_changes_nothing_witness :
  serve_edit demo_fablib demo_objects "gone" (ReqRemoveNode "n1") demo_edit_state
  = (Raise (HTTPException 500 "slice not found"), demo_edit_state).
Proof.
  apply (edit_of_unknown_slice_changes_nothing demo_fablib demo_objects "gone"
           (ReqRemoveNode "n1") demo_edit_state (Exception "slice not found")).
  vm_compute. reflexivity.
Defined.

Lemma until_refused_prefix obj l : (until_refused obj l).1 `prefix_of` l.
Proof.
  induction l as [|c l IH]; simpl; [done|].
  destruct (accepts obj c).
  - destruct (until_refused obj l) as [done e]. simpl in *.
    by apply prefix_cons.
  - simpl. apply prefix_cons, prefix_nil.
Qed.

(** What one call of [update_node] returns and leaves, once the slice
    and the node are found. *)
Lemma update_node_run fab obj name node_name req ref node s :
  eval (_get_slice_obj fab name) (es_store s) = Ok (PySlice ref) →
  slice_get_node obj (PySlice ref) node_name = Ok node →
  update_node fab obj name node_name req s
  = (match (until_refused obj (wanted_changes node req)).2 with
     | Some e => Raise (HTTPException 500 (str e))
     | None =>
         match eval (_serialize fab (PySlice ref) true) (es_store s) with
         | Ok v => Ok v
         | Raise e => Raise (HTTPException 500 (str e))
         end
     end,
     mkEditState (es_store s)
       (es_calls s ++ (until_refused obj (wanted_changes node req)).1)).
Proof.
  intros Hobj Hnode.
  apply on_store_get_slice_obj in Hobj.
  unfold update_node, try_except.
  unfold bind at 1. rewrite Hobj.
  unfold bind at 1. unfold slice_method, call at 1. rewrite Hnode.
  unfold wanted_changes.
  destruct s as [st calls].
  destruct req as [[site|] [cores|] [ram|] [disk|] [image|]];
    cbn [un_site un_cores un_ram un_disk un_image when_given app until_refused];
    cbv beta iota zeta delta [bind change modify call failed_500 raise ret];
    cbn [es_store es_calls];
    repeat match goal with
           | |- context [accepts obj ?c] =>
               destruct (accepts obj c) as [[]|?]; cbn [fst snd es_store es_calls]
           end;
    rewrite ?on_store_serialize; cbn [fst snd es_store es_calls];
    repeat match goal with
           | |- context [eval ?m ?st] => destruct (eval m st)
           end;
    rewrite <- ?(assoc_L (++)); cbn [app]; rewrite ?app_nil_r; reflexivity.
Qed.

(** X26. [update_node] asks for the changes the request names in the fixed
    order site, cores, ram, disk, image, and stops at the first one FABlib
    refuses: the changes before the refused one have been made and are not
    taken back, the later ones are never asked, and the route answers HTTP
    500 with the text of the refusal.  When none is refused the answer is
    the serialized slice (HTTP 500 if serialization fails).  The store is
    not touched. *)
Theorem update_node_stops_at_first_refusal (fab : Fablib) (obj : Objects)
  (name node_name : string) (req : UpdateNodeRequest) (ref node : N)
  (s : EditState)
  (Hobj : eval (_get_slice_obj fab name) (es_store s) = Ok (PySlice ref))
  (Hnode : slice_get_node obj (PySlice ref) node_name = Ok node) :
  let wanted := wanted_changes node req in
  let done := (until_refused obj wanted).1 in
  let s' := (update_node fab obj name node_name req s).2 in
  done `prefix_of` wanted
  ∧ es_calls s' = (es_calls s ++ done)%list
  ∧ es_store s' = es_store s
  ∧ (update_node fab obj name node_name req s).1
    = match (until_refused obj wanted).2 with
      | Some e => Raise (HTTPException 500 (str e))
      | None =>
          match eval (_serialize fab (PySlice ref) true) (es_store s) with
          | Ok v => Ok v
          | Raise e => Raise (HTTPException 500 (str e))
          end
      end.
Proof.
  intros wanted done s'. split; [apply until_refused_prefix|].
  subst wanted done s'.
  rewrite (update_node_run fab obj name node_name req ref node s Hobj Hnode).
  done.
Qed.

Lemma update_node_stops_at_first_refusal_witness :
  let req := mkUpdateNode (Some "TACC") (Some 4%Z) (Some 16%Z) (Some 100%Z) None in
  let s' := (update_node demo_fablib demo_objects "exp2" "n1" req demo_edit_state).2 in
  es_calls s'
  = [SetSite 1 "TACC"; SetCapacities 1 (Cores 4); SetCapacities 1 (Ram 16)]
  ∧ (update_node demo_fablib demo_objects "exp2" "n1" req demo_edit_state).1
    = Raise (HTTPException 500 "insufficient RAM").
Proof.
  intros req s'.
  destruct (update_node_stops_at_first_refusal demo_fablib demo_objects
              "exp2" "n1" req 2 1 demo_edit_state)
    as (_ & Hcalls & _ & Hres);
    [vm_compute; reflexivity | reflexivity |].
  split; [exact Hcalls | exact Hres].
Defined.

(** The innermost loop of the name resolution. *)
Lemma resolve_one_node obj (name_of : N → string) iface_name ifs acc s :
  (∀ i, i ∈ ifs → iface_get_name obj i = Ok (name_of i)) →
  for_each ifs
    (λ ifaces iface,
       name ← call (iface_get_name obj iface);
       ret (if bool_decide (name = iface_name)
            then (ifaces ++ [iface])%list else ifaces))
    acc s
  = (Ok (acc ++ List.filter (λ i, bool_decide (name_of i = iface_name)) ifs)%list, s).
Proof.
  revert acc. induction ifs as [|i ifs IH]; intros acc Hnm; simpl.
  - by rewrite app_nil_r.
  - unfold bind at 1. unfold bind at 1. unfold call at 1.
    rewrite (Hnm i) by apply list_elem_of_here. unfold ret at 1.
    rewrite IH by (intros j Hj; apply Hnm; by apply list_elem_of_further).
    destruct (bool_decide (name_of i = iface_name)); [|done].
    by rewrite <- (assoc_L (++)).
Qed.

(** The middle loop: all nodes, for one requested name. *)
Lemma resolve_one_name obj (interfaces_of : N → list N) (name_of : N → string)
  iface_name nodes acc s :
  (∀ n, n ∈ nodes → node_get_interfaces obj n = Ok (interfaces_of n)) →
  (∀ n i, n ∈ nodes → i ∈ interfaces_of n → iface_get_name obj i = Ok (name_of i)) →
  for_each nodes
    (λ ifaces node,
       node_ifaces ← call (node_get_interfaces obj node);
       for_each node_ifaces
         (λ ifaces iface,
            name ← call (iface_get_name obj iface);
            ret (if bool_decide (name = iface_name)
                 then (ifaces ++ [iface])%list else ifaces))
         ifaces)
    acc s
  = (Ok (acc ++ List.filter (λ i, bool_decide (name_of i = iface_name))
                  (flat_map interfaces_of nodes))%list, s).
Proof.
  revert acc. induction nodes as [|n nodes IH]; intros acc Hifs Hnm; simpl.
  - by rewrite app_nil_r.
  - unfold bind at 1. unfold bind at 1. unfold call at 1.
    rewrite (Hifs n) by apply list_elem_of_here.
    rewrite (resolve_one_node obj name_of)
      by (intros i Hi; apply (Hnm n); [apply list_elem_of_here | done]).
    rewrite IH.
    + by rewrite List.filter_app, (assoc_L (++)).
    + intros m Hm. apply Hifs. by apply list_elem_of_further.
    + intros m i Hm Hi. apply (Hnm m); [by apply list_elem_of_further | done].
Qed.

(** The outer loop: every requested name in turn. *)
Lemma resolve_names obj ref (interfaces_of : N → list N)
  (name_of : N → string) nodes names acc s :
  slice_get_nodes obj (PySlice ref) = Ok nodes →
  (∀ n, n ∈ nodes → node_get_interfaces obj n = Ok (interfaces_of n)) →
  (∀ n i, n ∈ nodes → i ∈ interfaces_of n → iface_get_name obj i = Ok (name_of i)) →
  for_each names
    (λ ifaces iface_name,
       nodes ← slice_method (PySlice ref) (call (slice_get_nodes obj (PySlice ref)));
       for_each nodes
         (λ ifaces node,
            node_ifaces ← call (node_get_interfaces obj node);
            for_each node_ifaces
              (λ ifaces iface,
                 name ← call (iface_get_name obj iface);
                 ret (if bool_decide (name = iface_name)
                      then (ifaces ++ [iface])%list else ifaces))
              ifaces)
         ifaces)
    acc s
  = (Ok (acc ++ interfaces_named name_of (flat_map interfaces_of nodes) names)%list, s).
Proof.
  intros Hnodes Hifs Hnm. unfold interfaces_named.
  match goal with |- for_each _ ?b _ _ = _ => set (body := b) end.
  assert (Hbody : ∀ nm acc' s',
            body acc' nm s'
            = (Ok (acc' ++ List.filter (λ i, bool_decide (name_of i = nm))
                             (flat_map interfaces_of nodes))%list, s')).
  { intros nm acc' s'. subst body. cbv beta.
    unfold bind at 1. unfold slice_method, call at 1. rewrite Hnodes.
    by apply resolve_one_name. }
  clearbody body.
  revert acc s. induction names as [|nm names IH]; intros acc s.
  - simpl. by rewrite app_nil_r.
  - cbn [for_each flat_map]. unfold bind. rewrite Hbody, IH.
    by rewrite (assoc_L (++)).
Qed.

Lemma resolve_interfaces_run obj ref (interfaces_of : N → list N)
  (name_of : N → string) nodes names s :
  slice_get_nodes obj (PySlice ref) = Ok nodes →
  (∀ n, n ∈ nodes → node_get_interfaces obj n = Ok (interfaces_of n)) →
  (∀ n i, n ∈ nodes → i ∈ interfaces_of n → iface_get_name obj i = Ok (name_of i)) →
  resolve_interfaces obj (PySlice ref) names s
  = (Ok (interfaces_named name_of (flat_map interfaces_of nodes) names), s).
Proof.
  intros Hnodes Hifs Hnm. unfold resolve_interfaces.
  by rewrite (resolve_names obj ref interfaces_of name_of nodes).
Qed.

(** X27. [add_network] attaches, for each requested interface name in turn,
    every interface of every node that bears that name, in node and
    interface order: a name no interface bears adds nothing and is not
    reported, and a name borne by several interfaces adds them all.  The
    network is then requested once with the interfaces found; when no
    interface bears any requested name it is requested with none. *)
Theorem add_network_attaches_every_match (fab : Fablib) (obj : Objects)
  (name : string) (req : CreateNetworkRequest) (ref : N) (nodes : list N)
  (interfaces_of : N → list N) (name_of : N → string) (s : EditState)
  (Hobj : eval (_get_slice_obj fab name) (es_store s) = Ok (PySlice ref))
  (Hnodes : slice_get_nodes obj (PySlice ref) = Ok nodes)
  (Hifs : ∀ n, n ∈ nodes → node_get_interfaces obj n = Ok (interfaces_of n))
  (Hnm : ∀ n i, n ∈ nodes → i ∈ interfaces_of n →
                iface_get_name obj i = Ok (name_of i)) :
  let all := flat_map interfaces_of nodes in
  let found := interfaces_named name_of all (cw_interfaces req) in
  es_calls (add_network fab obj name req s).2
  = (es_calls s ++ [AddL2Network (PySlice ref) (cw_name req) found (cw_type req)])%list
  ∧ (∀ i, i ∈ found ↔ i ∈ all ∧ name_of i ∈ cw_interfaces req)
  ∧ ((∀ i, i ∈ all → name_of i ∉ cw_interfaces req) → found = []).
Proof.
  intros all found.
  assert (Hfound : ∀ i, i ∈ found ↔ i ∈ all ∧ name_of i ∈ cw_interfaces req).
  { intros i. subst found. unfold interfaces_named.
    rewrite list_elem_of_In, in_flat_map. split.
    - intros (nm & Hin & Hi). apply filter_In in Hi as [Hi Hb].
      apply bool_decide_eq_true in Hb. subst nm.
      by rewrite !list_elem_of_In.
    - intros [Hi Hn]. exists (name_of i). rewrite <- !list_elem_of_In.
      split; [done|]. rewrite list_elem_of_In. apply filter_In.
      split; [by rewrite <- list_elem_of_In | by apply bool_decide_eq_true]. }
  split; [|split; [exact Hfound|]].
  - apply on_store_get_slice_obj in Hobj.
    unfold add_network, try_except.
    unfold bind at 1. rewrite Hobj.
    unfold bind at 1.
    rewrite (resolve_interfaces_run obj ref interfaces_of name_of nodes) by done.
    fold all. fold found.
    unfold bind at 1. unfold slice_method, change, bind, modify, call. simpl.
    destruct (accepts obj _) as [[]|e]; simpl; [|done].
    rewrite on_store_serialize. simpl.
    by destruct (eval _ _).
  - intros Hnone. destruct found as [|i found'] eqn:Hf; [done|].
    exfalso. destruct (Hfound i) as [H1 _].
    destruct H1 as [Hi Hn]; [apply list_elem_of_here|].
    by apply (Hnone i).
Qed.

Lemma add_network_attaches_every_match_witness :
  es_calls (add_network demo_fablib demo_objects "exp2"
              (mkCreateNetwork "net1" "L2Bridge" ["p1"; "p9"]) demo_edit_state).2
  = [AddL2Network (PySlice 2) "net1" [10%N; 20%N] "L2Bridge"].
Proof.
  pose proof (add_network_attaches_every_match demo_fablib demo_objects "exp2"
                (mkCreateNetwork "net1" "L2Bridge" ["p1"; "p9"]) 2 [1%N; 2%N]
                (λ n, match n with 1%N => [10%N; 11%N] | 2%N => [20%N] | _ => [] end)
                (λ i, match i with 11%N => "p2" | _ => "p1" end)
                demo_edit_state) as H.
  simpl in H. apply H; [vm_compute; reflexivity | reflexivity | done | done].
Defined.

End EditFacts.

(** * Properties of the log stream *)

Section LogFacts.
Import Logs.








Lemma send_all_run w lines s :
  (∀ k d, send_text w k d = Ok tt) →
  send_all w lines s = (Ok tt, mkStream (file_pos s) (sent s ++ lines)).
Proof.
  intros Hsend. revert s. induction lines as [|ln lines IH]; intros [pos out]; simpl.
  - by rewrite app_nil_r.
  - unfold bind at 1. unfold websocket_send_text, bind, get, put, call. simpl.
    rewrite Hsend, IH. simpl. by rewrite <- (assoc_L (++)).
Qed.

(** X29. When the log file exists at the start and the client accepts every
    send, the lines sent before the loop are the last 200 lines of the file
    (all of them if there are at most 200), in order, one send per line, and
    [file_pos] is then the size of the file as measured after the lines were
    read. *)
Theorem start_sends_the_last_lines (w : World) (log_file : string)
  (lines : list text) (size : nat) (s : Stream)
  (Hfile : start_isfile w = true)
  (Hlines : readlines w = Ok lines)
  (Hsize : start_getsize w = Ok size)
  (Hsend : ∀ k d, send_text w k d = Ok tt) :
  start w log_file s = (Ok tt, mkStream size (sent s ++ last_lines lines))
  ∧ last_lines lines `suffix_of` lines
  ∧ List.length (last_lines lines) = (List.length lines `min` 200)%nat.
Proof.
  split; [|split].
  - unfold start. rewrite Hfile.
    unfold bind at 1. unfold call at 1. rewrite Hlines.
    unfold bind at 1. rewrite send_all_run by done.
    unfold bind, call, set_file_pos, modify. rewrite Hsize. done.
  - unfold last_lines. destruct (_ <? _)%nat; [apply suffix_drop | done].
  - unfold last_lines. destruct (Nat.ltb_spec 200 (List.length lines)).
    + rewrite length_drop. lia.
    + lia.
Qed.

Lemma start_sends_the_last_lines_witness :
  start steady_world "/tmp/fablib/fablib.log" fresh
  = (Ok tt, mkStream 4 [list_ascii_of_string "a"; list_ascii_of_string "b"]).
Proof.
  apply (start_sends_the_last_lines steady_world "/tmp/fablib/fablib.log"
           [list_ascii_of_string "a"; list_ascii_of_string "b"] 4 fresh);
    reflexivity.
Defined.

Lemma all_delivered_but_last w s : all_delivered w s → all_but_last_delivered w s.
Proof. intros H k t Hk _. by apply H. Qed.

Lemma careful_ret {A} w (a : A) : careful w (ret a).
Proof. by intros s Hs. Qed.

Lemma careful_call {A} w (r : res A) : careful w (call r).
Proof.
  intros s Hs. unfold call. destruct r; [done | by apply all_delivered_but_last].
Qed.

Lemma careful_get w : careful w get.
Proof. by intros s Hs. Qed.

Lemma careful_set_file_pos w n : careful w (set_file_pos n).
Proof. by intros s Hs. Qed.

Lemma careful_bind {A B} w (m : M Stream A) (k : A → M Stream B) :
  careful w m → (∀ a, careful w (k a)) → careful w (bind m k).
Proof.
  intros Hm Hk s Hs. unfold bind. specialize (Hm s Hs).
  destruct (m s) as [[a|e] s1]; [by apply Hk | done].
Qed.

Lemma careful_send w t : careful w (websocket_send_text w t).
Proof.
  intros [pos out] Hs. unfold websocket_send_text, bind, get, put, call. simpl.
  destruct (send_text w (List.length out) t) as [[]|e] eqn:Hsend.
  - intros k d Hk. simpl in Hk.
    destruct (decide (k < List.length out)%nat) as [Hlt|Hge].
    + rewrite lookup_app_l in Hk by done. by apply (Hs k d).
    + rewrite lookup_app_r in Hk by lia.
      apply list_lookup_singleton_Some in Hk as [Hk <-].
      replace k with (List.length out) by lia. done.
  - intros k d Hk Hlast. simpl in Hk, Hlast. rewrite length_app in Hlast.
    simpl in Hlast. rewrite lookup_app_l in Hk by lia. by apply (Hs k d).
Qed.

Lemma careful_send_all w lines : careful w (send_all w lines).
Proof.
  induction lines as [|ln lines IH]; simpl.
  - apply careful_ret.
  - apply careful_bind; [apply careful_send | done].
Qed.

Ltac careful_step :=
  first
    [ apply careful_ret | apply careful_call | apply careful_get
    | apply careful_set_file_pos | apply careful_send | apply careful_send_all
    | apply careful_bind; [|intros]
    | match goal with
      | |- careful _ (if ?b then _ else _) => destruct b
      | |- careful _ (let '(_, _) := ?p in _) => destruct p
      | |- careful _ (match ?l with [] => _ | _ :: _ => _ end) => destruct l
      end ].

Lemma careful_start w log_file : careful w (start w log_file).
Proof. unfold start. repeat careful_step. Qed.

Lemma careful_tail_turn w t : careful w (tail_turn w t).
Proof. unfold tail_turn. repeat careful_step. Qed.

Lemma careful_tail_loop w sch : careful w (tail_loop w sch).
Proof.
  induction sch as [|t sch IH]; simpl.
  - apply careful_ret.
  - apply careful_bind; [apply careful_tail_turn | done].
Qed.

(** X30. The log stream sends nothing after a send has failed: of the texts
    handed to [send_text] during a connection, every one but possibly the
    last went through.  Whatever goes wrong with the log file or with a
    send is swallowed: the handler raises only what [accept] or the reading
    of the rc file raised, and otherwise returns normally. *)
Theorem log_stream_stops_at_failed_send (w : World) (sch : list Turn) :
  all_but_last_delivered w (logs_ws w sch fresh).2
  ∧ (logs_ws w sch fresh).1
    = match accept w, configured_log_file w with
      | Raise e, _ => Raise e
      | Ok _, Raise e => Raise e
      | Ok _, Ok _ => Ok tt
      end.
Proof.
  assert (Hfresh : all_delivered w fresh) by (intros k t Hk; done).
  unfold logs_ws, bind, call, try_except.
  destruct (accept w) as [[]|e]; [|split; [by apply all_delivered_but_last | done]].
  destruct (configured_log_file w) as [log_file|e];
    [|split; [by apply all_delivered_but_last | done]].
  pose proof (careful_start w log_file fresh Hfresh) as Hstart.
  destruct (start w log_file fresh) as [[[]|e] s1]; [|by split].
  pose proof (careful_tail_loop w sch s1 Hstart) as Hloop.
  destruct (tail_loop w sch s1) as [[[]|e] s2]; [|by split].
  split; [by apply all_delivered_but_last | done].
Qed.

End LogFacts.
